(** * Verification of the media-processing server of finalcut (src/server.js)

    The file src/server.js holds two versions of the Express server one
    after the other: the first one (lines 1-1511) handles
    /api/process-video by buffering the upload to a temp file before the
    operation switch (the "buffered handler"); the second one
    (lines 1512-3328) streams the request body to ffmpeg and keeps a
    multipart (FormData) path for add_audio_track and burn_subtitles.
    The helpers checkHasAudioStream, buildCrossfadeFilter,
    buildWipeFilter, buildFadeFilter and the /api/transition-videos
    handler are identical in both versions.

    JavaScript numbers are modelled by [jsnum]: exact rationals plus the
    two infinities and NaN.  Multiplying or dividing by 2, the only
    arithmetic of the loops studied here, is exact in binary floating
    point away from overflow and underflow, so the rationals lose nothing
    there; the infinities are kept because JSON.parse reads [1e999] as
    Infinity.  Additions whose rounding matters (the pan gains, token
    expiry times) go through [dadd] and [dsub], which round the exact
    result to the nearest double. *)

From Stdlib Require Import Arith QArith Qpower Qround Qabs Lqa Lia List Bool String.
Import ListNotations.
Open Scope string_scope.
Open Scope list_scope.

(** ** JavaScript numbers *)

Inductive jsnum : Type :=
| JFin (q : Q)
| JPosInf
| JNegInf
| JNaN.

Definition Qltb (a b : Q) : bool := negb (Qle_bool b a).

(** [a < b] *)
Definition jlt (a b : jsnum) : bool :=
  match a, b with
  | JNaN, _ | _, JNaN => false
  | JFin x, JFin y => Qltb x y
  | JNegInf, JNegInf => false
  | JNegInf, _ => true
  | _, JPosInf => match a with JPosInf => false | _ => true end
  | _, _ => false
  end.

(** [a <= b] *)
Definition jle (a b : jsnum) : bool :=
  match a, b with
  | JNaN, _ | _, JNaN => false
  | JFin x, JFin y => Qle_bool x y
  | JNegInf, _ => true
  | _, JPosInf => true
  | _, _ => false
  end.

Definition jgt (a b : jsnum) : bool := jlt b a.
Definition jge (a b : jsnum) : bool := jle b a.

(** Strict inequality [a !== b] on numbers. *)
Definition jneq (a b : jsnum) : bool :=
  match a, b with
  | JFin x, JFin y => negb (Qeq_bool x y)
  | JPosInf, JPosInf | JNegInf, JNegInf => false
  | _, _ => true
  end.

Definition jneg (a : jsnum) : jsnum :=
  match a with
  | JFin x => JFin (Qred (- x))
  | JPosInf => JNegInf
  | JNegInf => JPosInf
  | JNaN => JNaN
  end.

(** [a + b] *)
Definition jadd (a b : jsnum) : jsnum :=
  match a, b with
  | JNaN, _ | _, JNaN => JNaN
  | JFin x, JFin y => JFin (Qred (x + y))
  | JPosInf, JNegInf | JNegInf, JPosInf => JNaN
  | JPosInf, _ | _, JPosInf => JPosInf
  | JNegInf, _ | _, JNegInf => JNegInf
  end.

(** [a - b] *)
Definition jsub (a b : jsnum) : jsnum := jadd a (jneg b).

(** sign of a finite factor: -1, 0 or 1 *)
Definition Qsgn (x : Q) : Z := Z.sgn (Qnum x).

Definition inf_of_sign (s : Z) : jsnum :=
  match s with Z.pos _ => JPosInf | Z.neg _ => JNegInf | Z0 => JNaN end.

(** [a * b] *)
Definition jmul (a b : jsnum) : jsnum :=
  match a, b with
  | JNaN, _ | _, JNaN => JNaN
  | JFin x, JFin y => JFin (Qred (x * y))
  | JPosInf, JFin y | JFin y, JPosInf => inf_of_sign (Qsgn y)
  | JNegInf, JFin y | JFin y, JNegInf => inf_of_sign (- Qsgn y)
  | JPosInf, JPosInf | JNegInf, JNegInf => JPosInf
  | _, _ => JNegInf
  end.

(** [a / b]; a zero divisor is taken as +0 *)
Definition jdiv (a b : jsnum) : jsnum :=
  match a, b with
  | JNaN, _ | _, JNaN => JNaN
  | JFin x, JFin y =>
      if Qeq_bool y 0 then inf_of_sign (Qsgn x) else JFin (Qred (x / y))
  | JPosInf, JFin y => if Qeq_bool y 0 then JPosInf else inf_of_sign (Qsgn y)
  | JNegInf, JFin y => if Qeq_bool y 0 then JNegInf else inf_of_sign (- Qsgn y)
  | JFin _, _ => JFin 0
  | _, _ => JNaN
  end.

Definition j0 : jsnum := JFin 0.
Definition j1 : jsnum := JFin 1.
Definition j2 : jsnum := JFin 2.
Definition jhalf : jsnum := JFin (1 # 2).

(** ** speed_video: the atempo chain

    Both handlers (lines 675-709 and 2585-2604) contain the same code:
<<
      if (speed >= 0.5 && speed <= 2.0) {
        audioFilter = `atempo=${speed}`;
      } else if (speed < 0.5) {
        let remainingSpeed = speed; const filters = [];
        while (remainingSpeed < 0.5) { filters.push('atempo=0.5'); remainingSpeed *= 2; }
        if (remainingSpeed !== 1.0) filters.push(`atempo=${remainingSpeed}`);
        audioFilter = filters.join(',');
      } else {
        ... while (remainingSpeed > 2.0) { filters.push('atempo=2.0'); remainingSpeed /= 2; }
        ...
      }
      command = command.videoFilters(`setpts=PTS/${parsedArgs.speed}`).audioFilters(audioFilter);
>>
    An atempo stage is represented by its factor; the chain is the list of
    stages in order.  The while loops run on fuel: [None] means the fuel
    ran out, and a loop that returns [None] for every fuel never ends. *)

(** [while (remainingSpeed < 0.5) { filters.push('atempo=0.5'); remainingSpeed *= 2; }] *)
Fixpoint slow_loop (fuel : nat) (remainingSpeed : jsnum) (filters : list jsnum)
  : option (list jsnum * jsnum) :=
  match fuel with
  | O => None
  | S k =>
      if jlt remainingSpeed jhalf
      then slow_loop k (jmul remainingSpeed j2) (filters ++ [jhalf])
      else Some (filters, remainingSpeed)
  end.

(** [while (remainingSpeed > 2.0) { filters.push('atempo=2.0'); remainingSpeed /= 2; }] *)
Fixpoint fast_loop (fuel : nat) (remainingSpeed : jsnum) (filters : list jsnum)
  : option (list jsnum * jsnum) :=
  match fuel with
  | O => None
  | S k =>
      if jgt remainingSpeed j2
      then fast_loop k (jdiv remainingSpeed j2) (filters ++ [j2])
      else Some (filters, remainingSpeed)
  end.

(** [if (remainingSpeed !== 1.0) filters.push(`atempo=${remainingSpeed}`)] *)
Definition push_rest (r : list jsnum * jsnum) : list jsnum :=
  let (filters, remainingSpeed) := r in
  if jneq remainingSpeed j1 then filters ++ [remainingSpeed] else filters.

Definition atempo_chain (fuel : nat) (speed : jsnum) : option (list jsnum) :=
  if jge speed jhalf && jle speed j2 then Some [speed]
  else if jlt speed jhalf then option_map push_rest (slow_loop fuel speed [])
  else option_map push_rest (fast_loop fuel speed []).






(** Product of the stage factors of a chain. *)
Definition chain_product (stages : list jsnum) : jsnum :=
  fold_left jmul stages j1.

(** The video filter [setpts=PTS/x] and its action on a timestamp. *)
Inductive vfilter : Type :=
| Setpts_div (x : jsnum).

Definition vfilter_apply (f : vfilter) (pts : jsnum) : jsnum :=
  match f with Setpts_div x => jdiv pts x end.

(** ** Rounding to binary64

    JavaScript's [+] and [-] return the double nearest the exact result,
    ties to even; [round_double] computes it.  A positive [a] in
    [[2^k, 2^(k+1))] is rounded to a multiple of [2^e] with
    [e = max(-1074, k - 52)] (53 significant bits, or the subnormal grid
    below [2^-1022]); a result of [2^1024] or more overflows to Infinity;
    negative values round symmetrically. *)

Definition two_pow (e : Z) : Q := Qpower (2 # 1) e.

(** [floor(log2 a)] for [a > 0]. *)
Definition Qlog2_floor (a : Q) : Z :=
  let k := (Z.log2 (Qnum a) - Z.log2 (Zpos (Qden a)))%Z in
  if Qle_bool (two_pow k) a then k else (k - 1)%Z.

(** The integer nearest [u], ties to even. *)
Definition rne (u : Q) : Z :=
  let f := Qfloor u in
  let r := u - inject_Z f in
  if Qltb r (1 # 2) then f
  else if Qltb (1 # 2) r then (f + 1)%Z
  else if Z.even f then f else (f + 1)%Z.

Definition emin : Z := (-1074)%Z.

Definition round_exp (a : Q) : Z := Z.max emin (Qlog2_floor a - 52).

Definition round_pos_value (a : Q) : Q :=
  let e := round_exp a in inject_Z (rne (a / two_pow e)) * two_pow e.

Definition round_pos (a : Q) : jsnum :=
  let v := round_pos_value a in
  if Qle_bool (two_pow 1024) v then JPosInf else JFin (Qred v).

Definition round_double (q : Q) : jsnum :=
  let q := Qred q in
  if Qeq_bool q 0 then JFin 0
  else if Qltb 0 q then round_pos q
  else jneg (round_pos (- q)).

(** [a + b] on doubles: finite operands are added exactly and rounded;
    the other cases are those of [jadd]. *)
Definition dadd (a b : jsnum) : jsnum :=
  match a, b with JFin x, JFin y => round_double (x + y) | _, _ => jadd a b end.

(** [a - b] on doubles. *)
Definition dsub (a b : jsnum) : jsnum :=
  match a, b with JFin x, JFin y => round_double (x - y) | _, _ => jsub a b end.

(** ** audio_pan: pan to gains (lines 889-908 and 2747-2761) *)

Definition pan_gains (panValue : jsnum) : jsnum * jsnum :=
  if jlt panValue j0 then (JFin 1, dadd (JFin 1) panValue)
  else if jgt panValue j0 then (dsub (JFin 1) panValue, JFin 1)
  else (JFin 1, JFin 1).

(** ** Filter graphs of the multi-video transitions (lines 3044-3210)

    The builders return the filter_complex string
    [[...filters, ...audioFilters].join(';')]; here the list of its
    statements is kept in order, each statement with its input pads, its
    filter and its output pad. *)

Inductive label : Type :=
| LInV (i : nat)      (** [[i:v]] *)
| LInA (i : nat)      (** [[i:a]] *)
| LSilent (i : nat)   (** [[silent<i>]] *)
| LV                  (** [[v]] *)
| LA                  (** [[a]] *)
| LVFade (i : nat)    (** [[v<i>fade]] *)
| LAFade (i : nat).   (** [[a<i>fade]] *)

Inductive filt : Type :=
| FAnullsrc                            (** [anullsrc=channel_layout=stereo:sample_rate=44100] *)
| FConcat (n v a : nat)                (** [concat=n=<n>:v=<v>:a=<a>] *)
| FCopy                                (** [copy] *)
| FACopy                               (** [acopy] *)
| FFade (t : string) (st d : jsnum)    (** [fade=t=<t>:st=<st>:d=<d>] *)
| FAFade (t : string) (st d : jsnum).  (** [afade=t=<t>:st=<st>:d=<d>] *)

Record stmt : Type := mkStmt {
  st_in : list label;
  st_filter : filt;
  st_out : label
}.

Inductive build_result : Type :=
| Built (graph : list stmt)
| BuildError (msg : string).

(** [hasAudio[i]], with [undefined] (out of range) falsy. *)
Definition has_audio_at (hasAudio : list bool) (i : nat) : bool := nth i hasAudio false.

Definition anyHasAudio (hasAudio : list bool) : bool := existsb (fun h => h) hasAudio.
Definition allHasAudio (hasAudio : list bool) : bool := forallb (fun h => h) hasAudio.

(** [for (i = 0; i < numVideos; i++) if (!hasAudio[i]) filters.push(`anullsrc=...[silent${i}]`)] *)
Definition silent_pads (numVideos : nat) (hasAudio : list bool) : list stmt :=
  flat_map (fun i => if has_audio_at hasAudio i then []
                     else [mkStmt [] FAnullsrc (LSilent i)])
           (seq 0 numVideos).

Definition audio_source (hasAudio : list bool) (i : nat) : label :=
  if has_audio_at hasAudio i then LInA i else LSilent i.

(** [`${videoInputs}concat=n=${numVideos}:v=1:a=0[v]`] *)
Definition video_concat (numVideos : nat) : stmt :=
  mkStmt (map LInV (seq 0 numVideos)) (FConcat numVideos 1 0) LV.

(** [`${audioInputs}concat=n=${numVideos}:v=0:a=1[a]`] *)
Definition audio_concat (numVideos : nat) (hasAudio : list bool) : stmt :=
  mkStmt (map (audio_source hasAudio) (seq 0 numVideos)) (FConcat numVideos 0 1) LA.

(** The concatenation body shared by buildCrossfadeFilter and buildWipeFilter. *)
Definition concat_graph (numVideos : nat) (hasAudio : list bool) : list stmt :=
  if anyHasAudio hasAudio then
    let filters := (if negb (allHasAudio hasAudio) then silent_pads numVideos hasAudio else [])
                   ++ [video_concat numVideos] in
    let audioFilters := [audio_concat numVideos hasAudio] in
    filters ++ audioFilters
  else [video_concat numVideos] ++ [].

Definition buildCrossfadeFilter (numVideos : nat) (duration : jsnum) (hasAudio : list bool)
  (transition : string) : build_result :=
  if Nat.ltb numVideos 2 then BuildError "At least 2 videos required for crossfade"
  else Built (concat_graph numVideos hasAudio).

Definition buildWipeFilter (numVideos : nat) (duration : jsnum) (transition : string)
  (hasAudio : list bool) : build_result :=
  if Nat.ltb numVideos 2 then BuildError "At least 2 videos required for wipe transition"
  else Built (concat_graph numVideos hasAudio).

(** buildFadeFilter: the statement pushed to [filters] for video [i]. *)
Definition fade_video_stmt (numVideos : nat) (duration : jsnum) (i : nat) : stmt :=
  if Nat.eqb i 0 && Nat.eqb numVideos 2 then mkStmt [LInV i] FCopy (LVFade i)
  else if Nat.eqb i 0 then mkStmt [LInV i] FCopy (LVFade i)
  else if Nat.eqb i (numVideos - 1) then mkStmt [LInV i] (FFade "in" j0 duration) (LVFade i)
  else mkStmt [LInV i] (FFade "in" j0 duration) (LVFade i).

(** buildFadeFilter: the statement pushed to [audioFilters] for video [i]
    (only when [anyHasAudio]). *)
Definition fade_audio_stmt (numVideos : nat) (duration : jsnum) (hasAudio : list bool)
  (i : nat) : stmt :=
  let audioSource := audio_source hasAudio i in
  if Nat.eqb i 0 && Nat.eqb numVideos 2 then mkStmt [audioSource] FACopy (LAFade i)
  else if Nat.eqb i 0 then mkStmt [audioSource] FACopy (LAFade i)
  else if Nat.eqb i (numVideos - 1) then mkStmt [audioSource] (FAFade "in" j0 duration) (LAFade i)
  else mkStmt [audioSource] (FAFade "in" j0 duration) (LAFade i).

Definition buildFadeFilter (numVideos : nat) (duration : jsnum) (hasAudio : list bool)
  : build_result :=
  if Nat.ltb numVideos 2 then BuildError "At least 2 videos required for fade transition"
  else
    let any := anyHasAudio hasAudio in
    let idx := seq 0 numVideos in
    let pads := if any && negb (allHasAudio hasAudio) then silent_pads numVideos hasAudio
                else [] in
    let filters := pads ++ map (fade_video_stmt numVideos duration) idx
                   ++ [mkStmt (map LVFade idx) (FConcat numVideos 1 0) LV] in
    let audioFilters :=
      if any then map (fade_audio_stmt numVideos duration hasAudio) idx
                  ++ [mkStmt (map LAFade idx) (FConcat numVideos 0 1) LA]
      else [] in
    Built (filters ++ audioFilters).

(** Silent pads and labels of a graph. *)
Definition is_silent_pad_for (i : nat) (s : stmt) : bool :=
  match st_filter s, st_out s with
  | FAnullsrc, LSilent j => Nat.eqb i j
  | _, _ => false
  end.

Definition is_silent_pad (s : stmt) : bool :=
  match st_filter s with FAnullsrc => true | _ => false end.

Definition label_eqb (a b : label) : bool :=
  match a, b with
  | LInV i, LInV j | LInA i, LInA j | LSilent i, LSilent j
  | LVFade i, LVFade j | LAFade i, LAFade j => Nat.eqb i j
  | LV, LV | LA, LA => true
  | _, _ => false
  end.

(** Does label [l] occur in the graph, as an input or an output? *)
Definition mentions (l : label) (g : list stmt) : bool :=
  existsb (fun s => existsb (label_eqb l) (st_in s) || label_eqb l (st_out s)) g.

Definition outputs (l : label) (g : list stmt) : bool :=
  existsb (fun s => label_eqb l (st_out s)) g.

(** The silent-pad property of a transition graph [g] over [hasAudio]:
    with some audio, exactly one [anullsrc] pad for each input without
    audio, none for the others, and an output [[a]]; without audio, no
    pad and no [[a]] anywhere. *)
Definition silent_pad_property (hasAudio : list bool) (g : list stmt) : Prop :=
  (anyHasAudio hasAudio = true ->
     (forall i, (i < List.length hasAudio)%nat ->
        List.length (filter (is_silent_pad_for i) g) =
        (if has_audio_at hasAudio i then 0 else 1)%nat) /\
     (forall s, In s g -> is_silent_pad s = true ->
        exists i, (i < List.length hasAudio)%nat /\ has_audio_at hasAudio i = false /\
                  st_out s = LSilent i) /\
     outputs LA g = true) /\
  (anyHasAudio hasAudio = false ->
     (forall s, In s g -> is_silent_pad s = false) /\ mentions LA g = false).

(** ** Commands built by the operation switch *)

(** The part of the ffmpeg command an operation case sets up.  Only the
    cases the properties below look into are spelled out; every other
    registered operation yields [COp] with its name. *)
Inductive command : Type :=
| CSpeed (video : vfilter) (audio : list jsnum)
| CPan (leftGain rightGain : jsnum)
| COp (op : string).

(** Outcome of the operation switch: a command to run, an error for the
    caller ([reject(new Error(msg))] in the buffered handler,
    [res.status(400).json({error: msg})] in the streaming one), a bare
    [res.status(400).end()], or a case that never finishes. *)
Inductive dispatch : Type :=
| DCommand (c : command)
| DReject (msg : string)
| DEnd400
| DHang.

Definition speed_video_case (fuel : nat) (speed : jsnum) : dispatch :=
  match atempo_chain fuel speed with
  | Some audioFilter => DCommand (CSpeed (Setpts_div speed) audioFilter)
  | None => DHang
  end.

Definition audio_pan_case (panValue : jsnum) : dispatch :=
  let (leftGain, rightGain) := pan_gains panValue in
  DCommand (CPan leftGain rightGain).

(** ** Effects: temp files, ffprobe, the engine and the response *)

(** A temp file [/tmp/<kind>-<uuid>.<ext>]; the uuid is drawn from a counter. *)
Record path : Type := mkPath { p_kind : string; p_id : nat }.

Definition path_eqb (a b : path) : bool :=
  String.eqb (p_kind a) (p_kind b) && Nat.eqb (p_id a) (p_id b).

(** What ffprobe reports and the code reads: [metadata.streams] as the
    list of the streams' [codec_type], or [None] when absent. *)
Definition metadata : Type := option (list string).

Inductive response : Type :=
| RJson (status : nat) (error : string)   (** [res.status(s).json({ error })] *)
| RMetadata (m : metadata)                (** [res.json(metadata)] *)
| RSend (contentType : string)            (** [res.set('Content-Type', t); res.send(buffer)] *)
| RPipe (contentType : string)            (** engine output piped to the response *)
| RPipeCut (contentType : string)         (** piped output cut short by an engine error after
                                              the headers went out: a 200 with a truncated body *)
| REnd (status : nat).                    (** [res.status(s).end()] *)

Inductive event : Type :=
| EWrite (p : path)        (** [fs.writeFile(p, ...)] *)
| ECreate (p : path)       (** the engine creates its output file [p] *)
| EUnlink (p : path)       (** [fs.unlink(p)] that removed [p] *)
| EProbe (p : path)        (** [ffmpeg.ffprobe(p, ...)] *)
| ERun                     (** the engine (ffmpeg) is invoked *)
| ERespond (r : response).

Record St : Type := mkSt {
  files : list path;                    (** temp files on disk *)
  next_id : nat;                        (** next uuid *)
  locals : list (string * list path);   (** the handler's path variables *)
  log : list event
}.

Definition st0 : St := mkSt [] 0 [] [].

(** Behaviour of the outside world during one request. *)
Record Env : Type := mkEnv {
  env_probe : path -> string + metadata;  (** ffprobe: error message or metadata *)
  env_run_ok : bool;                      (** the run ends with 'end' (true) or 'error' *)
  env_run_error : string;                 (** message of the 'error' event *)
  env_run_partial : bool                  (** on 'error', the engine had already produced
                                              output: the output file exists, or piped
                                              bytes (and so the headers) were sent *)
}.

(** [Returned]: a [return] statement ended the handler. *)
Inductive outcome (A : Type) : Type :=
| Ok (a : A)
| Throw (msg : string)
| Returned
| Hang.
Arguments Ok {A} a.
Arguments Throw {A} msg.
Arguments Returned {A}.
Arguments Hang {A}.

Definition M (A : Type) : Type := St -> St * outcome A.

Definition ret {A} (a : A) : M A := fun s => (s, Ok a).

Definition bind {A B} (m : M A) (f : A -> M B) : M B :=
  fun s => let (s', o) := m s in
    match o with
    | Ok a => f a s'
    | Throw e => (s', Throw e)
    | Returned => (s', Returned)
    | Hang => (s', Hang)
    end.

Notation "x <- c1 ;; c2" := (bind c1 (fun x => c2))
  (at level 61, c1 at next level, right associativity).
Notation "c1 ;; c2" := (bind c1 (fun _ => c2)) (at level 61, right associativity).

Definition throw {A} (e : string) : M A := fun s => (s, Throw e).
Definition early_return {A} : M A := fun s => (s, Returned).
Definition hang {A} : M A := fun s => (s, Hang).

(** [try { m } catch (e) { h(e.message) }] *)
Definition try_catch (m : M unit) (h : string -> M unit) : M unit :=
  fun s => let (s', o) := m s in
    match o with Throw e => h e s' | _ => (s', o) end.

Definition log_event (e : event) : M unit :=
  fun s => (mkSt (files s) (next_id s) (locals s) (log s ++ [e]), Ok tt).

Definition respond (r : response) : M unit := log_event (ERespond r).

Definition fresh (kind : string) : M path :=
  fun s => (mkSt (files s) (S (next_id s)) (locals s) (log s), Ok (mkPath kind (next_id s))).

Fixpoint assoc_get (k : string) (l : list (string * list path)) : list path :=
  match l with
  | [] => []
  | (k', v) :: l' => if String.eqb k k' then v else assoc_get k l'
  end.

Definition get_local (k : string) : M (list path) :=
  fun s => (s, Ok (assoc_get k (locals s))).

Definition set_local (k : string) (v : list path) : M unit :=
  fun s => (mkSt (files s) (next_id s) ((k, v) :: locals s) (log s), Ok tt).

Definition push_local (k : string) (p : path) : M unit :=
  v <- get_local k ;; set_local k (v ++ [p]).

Definition remove_path (p : path) (l : list path) : list path :=
  filter (fun q => negb (path_eqb p q)) l.

Definition add_file (p : path) : M unit :=
  fun s => (mkSt (p :: remove_path p (files s)) (next_id s) (locals s) (log s), Ok tt).

Definition file_exists (p : path) : M bool :=
  fun s => (s, Ok (existsb (path_eqb p) (files s))).

(** [await fs.writeFile(p, data)] that succeeds; [write_file_fs] below
    also covers a failing write. *)
Definition write_file (p : path) : M unit := add_file p ;; log_event (EWrite p).

Definition enoent : string := "ENOENT: no such file or directory".

(** [await fs.unlink(p)] *)
Definition unlink (p : path) : M unit :=
  b <- file_exists p ;;
  if b then
    (fun s => (mkSt (remove_path p (files s)) (next_id s) (locals s) (log s), Ok tt)) ;;
    log_event (EUnlink p)
  else throw enoent.

(** [try { await fs.unlink(p) } catch (e) {}] and [fs.unlink(p).catch(() => {})] *)
Definition unlink_quiet (p : path) : M unit := try_catch (unlink p) (fun _ => ret tt).

Fixpoint unlink_all (ps : list path) : M unit :=
  match ps with [] => ret tt | p :: ps' => unlink p ;; unlink_all ps' end.

Fixpoint unlink_all_quiet (ps : list path) : M unit :=
  match ps with [] => ret tt | p :: ps' => unlink_quiet p ;; unlink_all_quiet ps' end.

(** [await fs.readFile(p)] *)
Definition read_file (p : path) : M unit :=
  b <- file_exists p ;; if b then ret tt else throw enoent.

Definition msg_or (e d : string) : string := if String.eqb e "" then d else e.

Definition is_audio_stream (codec_type : string) : bool := String.eqb codec_type "audio".

Section Handlers.

Variable env : Env.

Definition ffprobe (p : path) : M (string + metadata) :=
  log_event (EProbe p) ;; ret (env_probe env p).

(** checkHasAudioStream (lines 3027-3041): [false] when ffprobe fails;
    otherwise [metadata.streams && metadata.streams.some(s => s.codec_type === 'audio')],
    whose [undefined] for absent streams is read as falsy by every caller. *)
Definition checkHasAudioStream (p : path) : M bool :=
  r <- ffprobe p ;;
  ret (match r with
       | inl _ => false
       | inr None => false
       | inr (Some streams) => existsb is_audio_stream streams
       end).

(** [command.output(out).on('end', resolve).on('error', reject).run()] *)
Definition run_engine (out : option path) : M unit :=
  log_event ERun ;;
  let create := match out with
                | Some p => add_file p ;; log_event (ECreate p)
                | None => ret tt
                end in
  if env_run_ok env then create
  else (if env_run_partial env then create else ret tt) ;; throw (env_run_error env).

Fixpoint mapM {A B} (f : A -> M B) (l : list A) : M (list B) :=
  match l with
  | [] => ret []
  | x :: l' => y <- f x ;; ys <- mapM f l' ;; ret (y :: ys)
  end.

End Handlers.

(** ** Requests and the two operation switches *)

(** The parsed [args] of a request, as far as the modelled cases read them. *)
Record Args : Type := mkArgs {
  a_speed : jsnum;                 (** parsedArgs.speed *)
  a_pan : jsnum;                   (** parsedArgs.pan *)
  a_format : option string;        (** parsedArgs.format *)
  a_codec : option string;         (** parsedArgs.codec *)
  a_mode : option string;          (** parsedArgs.mode *)
  a_volume : option jsnum;         (** parsedArgs.volume *)
  a_audioFile : string + string;   (** parseAudioInput(parsedArgs.audioFile): thrown message or the extension *)
  a_srtContent_ok : bool;          (** srtContent is a non-blank string *)
  a_translated : bool;             (** translatedSrtContent is a non-blank string *)
  a_style : option string;         (** parsedArgs.style *)
  a_position : option string       (** parsedArgs.position *)
}.

(** [x || d] for an optional string argument. *)
Definition or_default (o : option string) (d : string) : string :=
  match o with Some x => if String.eqb x "" then d else x | None => d end.

Definition dq : string := String (Ascii.ascii_of_nat 34) EmptyString.

Definition mode_error : string :=
  append "Mode must be either " (append dq (append "replace" (append dq
    (append " or " (append dq (append "mix" dq)))))).

Definition volume_error : string := "Volume must be between 0.0 and 2.0".

Definition mode_ok (mode : string) : bool :=
  String.eqb mode "replace" || String.eqb mode "mix".

(** [typeof volume !== 'number' || Number.isNaN(volume) || volume < 0 || volume > 2] *)
Definition volume_bad (v : jsnum) : bool :=
  match v with JNaN => true | _ => jlt v j0 || jgt v j2 end.

Definition volume_of (a : Args) : jsnum :=
  match a_volume a with Some v => v | None => j1 end.

Definition str_mem (x : string) (l : list string) : bool := existsb (String.eqb x) l.

(** Cases of both switches that only set filters from their arguments. *)
Definition plain_ops : list string :=
  ["resize_video"; "crop_video"; "rotate_video"; "flip_video_horizontal"; "add_text";
   "trim_video"; "adjust_volume"; "audio_fade"; "highpass_filter"; "lowpass_filter";
   "echo_effect"; "bass_adjustment"; "treble_adjustment"; "equalizer"; "normalize_audio";
   "delay_audio"; "audio_chorus"; "audio_flanger"; "audio_phaser"; "audio_vibrato";
   "audio_tremolo"; "audio_compressor"; "audio_gate"; "audio_stereo_widen"; "audio_reverse";
   "audio_limiter"; "audio_silence_remove"; "adjust_brightness"; "adjust_hue";
   "adjust_saturation"; "fade_transition"].

Definition conversionOps : list string :=
  ["convert_video_format"; "convert_audio_format"; "extract_audio"].

Definition crossfade_msg : string := "crossfade_transition requires special multi-video handling".

Definition unknown_msg (op : string) : string := append "Unknown operation: " op.

(** The switch of the buffered handler (lines 641-959); [audioPresent]
    is [!!audioInputPath]. *)
Definition buffered_switch (fuel : nat) (op : string) (a : Args) (audioPresent : bool)
  : dispatch :=
  if String.eqb op "speed_video" then speed_video_case fuel (a_speed a)
  else if String.eqb op "audio_pan" then audio_pan_case (a_pan a)
  else if String.eqb op "add_audio_track" then
    let mode := or_default (a_mode a) "replace" in
    if negb audioPresent then DReject "No audio track provided"
    else if negb (mode_ok mode) then DReject mode_error
    else if volume_bad (volume_of a) then DReject volume_error
    else DCommand (COp op)
  else if String.eqb op "crossfade_transition" then DReject crossfade_msg
  else if str_mem op plain_ops || str_mem op conversionOps then DCommand (COp op)
  else DReject (unknown_msg op).

Definition supportedVideoFormats : list string := ["mp4"; "webm"; "mov"; "avi"; "mkv"; "flv"; "ogv"].
Definition supportedVideoCodecs : list string := ["libx264"; "libx265"; "libvpx-vp9"; "auto"].
Definition supportedAudioFormats : list string := ["mp3"; "wav"; "aac"; "ogg"; "flac"; "m4a"; "wma"].
Definition supportedExtractFormats : list string := ["mp3"; "wav"; "aac"; "ogg"; "flac"; "m4a"].

(** [!x || !list.includes(x)] for an optional string argument. *)
Definition missing_or_not_in (o : option string) (l : list string) : bool :=
  match o with
  | None => true
  | Some x => String.eqb x "" || negb (str_mem x l)
  end.

(** The switch of the streaming handler (lines 2550-2840). *)
Definition stream_switch (fuel : nat) (op : string) (a : Args) : dispatch :=
  if String.eqb op "speed_video" then speed_video_case fuel (a_speed a)
  else if String.eqb op "audio_pan" then audio_pan_case (a_pan a)
  else if String.eqb op "convert_video_format" then
    if missing_or_not_in (a_format a) supportedVideoFormats then DEnd400
    else if (match a_codec a with
             | Some c => negb (String.eqb c "") && negb (str_mem c supportedVideoCodecs)
             | None => false end) then DEnd400
    else DCommand (COp op)
  else if String.eqb op "convert_audio_format" then
    if missing_or_not_in (a_format a) supportedAudioFormats then DEnd400
    else DCommand (COp op)
  else if String.eqb op "extract_audio" then
    if negb (str_mem (or_default (a_format a) "mp3") supportedExtractFormats) then DEnd400
    else DCommand (COp op)
  else if String.eqb op "crossfade_transition" then DReject crossfade_msg
  else if str_mem op plain_ops then DCommand (COp op)
  else DReject (unknown_msg op).

(** Every operation name either handler accepts. *)
Definition registered_ops : list string :=
  ["get_video_info"; "speed_video"; "audio_pan"; "add_audio_track"; "burn_subtitles";
   "crossfade_transition"] ++ conversionOps ++ plain_ops.

Definition audio_content_type (ext : string) : string :=
  if String.eqb ext "mp3" then "audio/mpeg"
  else if String.eqb ext "wav" then "audio/wav"
  else if String.eqb ext "aac" then "audio/aac"
  else if String.eqb ext "ogg" then "audio/ogg"
  else if String.eqb ext "flac" then "audio/flac"
  else if String.eqb ext "m4a" then "audio/mp4"
  else if String.eqb ext "wma" then "audio/x-ms-wma"
  else "application/octet-stream".

Definition video_content_type (ext : string) : string :=
  if String.eqb ext "webm" then "video/webm"
  else if String.eqb ext "mov" then "video/quicktime"
  else if String.eqb ext "avi" then "video/x-msvideo"
  else if String.eqb ext "mkv" then "video/x-matroska"
  else if String.eqb ext "flv" then "video/x-flv"
  else if String.eqb ext "ogv" then "video/ogg"
  else "video/mp4".

Definition content_type (op outputExt : string) : string :=
  if String.eqb op "convert_audio_format" || String.eqb op "extract_audio"
  then audio_content_type outputExt
  else if String.eqb op "convert_video_format" then video_content_type outputExt
  else "video/mp4".

Definition output_ext (op : string) (a : Args) : string :=
  if str_mem op conversionOps then or_default (a_format a) "mp4" else "mp4".

(** A request to the buffered /api/process-video (lines 579-1037). *)
Record BufReq : Type := mkBufReq {
  br_file : bool;                  (** req.file is present *)
  br_operation : option string;    (** req.body.operation *)
  br_args : Args
}.

(** A streaming request to /api/process-video (lines 2482-2855):
    [x-operation] and the parsed [x-args] ([None]: not valid JSON). *)
Record StreamReq : Type := mkStreamReq {
  sq_operation : option string;
  sq_args : option Args
}.

(** A multipart request to /api/process-video (lines 2320-2480). *)
Record MultiReq : Type := mkMultiReq {
  mq_multerError : option string;
  mq_file : bool;
  mq_operation : option string;
  mq_args : Args
}.

(** A request to /api/transition-videos (lines 2857-3024): the number of
    uploaded files, [transition] and [parseFloat(duration)]. *)
Record TransReq : Type := mkTransReq {
  tq_nfiles : nat;
  tq_transition : option string;
  tq_duration : option jsnum
}.

Definition op_given (o : option string) : option string :=
  match o with Some x => if String.eqb x "" then None else Some x | None => None end.

(** ** The request handlers *)

Definition transition_build (t : string) (n : nat) (d : jsnum) (hasAudio : list bool)
  : option build_result :=
  if String.eqb t "crossfade" then Some (buildCrossfadeFilter n d hasAudio "fade")
  else if String.eqb t "wipe_left" then Some (buildWipeFilter n d "wipeleft" hasAudio)
  else if String.eqb t "wipe_right" then Some (buildWipeFilter n d "wiperight" hasAudio)
  else if String.eqb t "wipe_up" then Some (buildWipeFilter n d "wipeup" hasAudio)
  else if String.eqb t "wipe_down" then Some (buildWipeFilter n d "wipedown" hasAudio)
  else if String.eqb t "slide_left" then Some (buildWipeFilter n d "slideleft" hasAudio)
  else if String.eqb t "slide_right" then Some (buildWipeFilter n d "slideright" hasAudio)
  else if String.eqb t "slide_up" then Some (buildWipeFilter n d "slideup" hasAudio)
  else if String.eqb t "slide_down" then Some (buildWipeFilter n d "slidedown" hasAudio)
  else if String.eqb t "dissolve" then Some (buildCrossfadeFilter n d hasAudio "dissolve")
  else if String.eqb t "fade" then Some (buildFadeFilter n d hasAudio)
  else None.

Definition is_set (ps : list path) : bool := match ps with [] => false | _ => true end.

Section Requests.

Variable env : Env.

(** The buffered /api/process-video handler (lines 579-1037). *)
Definition buffered_handler (fuel : nat) (req : BufReq) : M unit :=
  try_catch (
    if negb (br_file req) then
      respond (RJson 400 "No video file provided") ;; early_return
    else match op_given (br_operation req) with
    | None => respond (RJson 400 "No operation specified") ;; early_return
    | Some op =>
      let a := br_args req in
      inputPath <- fresh "input" ;; set_local "inputPath" [inputPath] ;;
      let outputExt := output_ext op a in
      outputPath <- fresh "output" ;; set_local "outputPath" [outputPath] ;;
      write_file inputPath ;;
      (if String.eqb op "add_audio_track" then
         match a_audioFile a with
         | inl e => throw e
         | inr _ => ap <- fresh "audio" ;; set_local "audioInputPath" [ap] ;; write_file ap
         end
       else ret tt) ;;
      _sourceHasAudio <- (if String.eqb op "add_audio_track"
                          then checkHasAudioStream env inputPath else ret false) ;;
      audioInputPath <- get_local "audioInputPath" ;;
      result <- (if String.eqb op "get_video_info" then
                   r <- ffprobe env inputPath ;;
                   match r with inl e => throw e | inr m => ret (Some m) end
                 else match buffered_switch fuel op a (is_set audioInputPath) with
                   | DCommand _ => run_engine env (Some outputPath) ;; ret None
                   | DReject e => throw e
                   | DEnd400 => respond (REnd 400) ;; early_return
                   | DHang => hang
                   end) ;;
      match result with
      | Some m =>
          unlink inputPath ;; unlink_all audioInputPath ;; respond (RMetadata m)
      | None =>
          read_file outputPath ;;
          unlink inputPath ;; unlink outputPath ;; unlink_all audioInputPath ;;
          respond (RSend (content_type op outputExt))
      end
    end)
  (fun e =>
     i <- get_local "inputPath" ;; unlink_all_quiet i ;;
     o <- get_local "outputPath" ;; unlink_all_quiet o ;;
     au <- get_local "audioInputPath" ;; unlink_all_quiet au ;;
     respond (RJson 500 (msg_or e "Failed to process video"))).

(** The 'error' listener of a piped run: [if (!res.headersSent)
    res.status(500).end()].  Output already piped has sent the headers;
    the response is then the cut-short 200. *)
Definition pipe_error (contentType : string) : M unit :=
  if env_run_partial env then respond (RPipeCut contentType) else respond (REnd 500).

(** [command.toFormat(ext).on('error', ...).pipe(res)] *)
Definition run_stream (contentType : string) : M unit :=
  log_event ERun ;;
  if env_run_ok env then respond (RPipe contentType) else pipe_error contentType.

(** The streaming /api/process-video path (lines 2482-2855). *)
Definition stream_handler (fuel : nat) (req : StreamReq) : M unit :=
  match op_given (sq_operation req) with
  | None => respond (RJson 400 "No operation specified in x-operation header")
  | Some op =>
    match sq_args req with
    | None => respond (RJson 400 "Invalid x-args header: must be valid JSON")
    | Some a =>
      let outputExt := output_ext op a in
      if String.eqb op "get_video_info" then
        try_catch (
          tmp <- fresh "input" ;; set_local "tmpInputPath" [tmp] ;; write_file tmp ;;
          r <- ffprobe env tmp ;;
          match r with inl e => throw e | inr m => respond (RMetadata m) end)
        (fun e => respond (RJson 500 (msg_or e "Failed to get video info"))) ;;
        t <- get_local "tmpInputPath" ;; unlink_all_quiet t
      else
        match stream_switch fuel op a with
        | DCommand _ => run_stream (content_type op outputExt)
        | DReject e => respond (RJson 400 e)
        | DEnd400 => respond (REnd 400)
        | DHang => hang
        end
    end
  end.

(** burn_subtitles on the multipart path (lines 2335-2425). *)
Definition burn_subtitles (a : Args) : M unit :=
  let style := match a_style a with Some x => x | None => "default" end in
  let position := match a_position a with Some x => x | None => "bottom" end in
  if negb (a_srtContent_ok a) then
    respond (RJson 400 "srtContent is required for burn_subtitles")
  else if negb (str_mem style ["default"; "white_on_black"; "yellow"]) then
    respond (RJson 400 "style must be one of: default, white_on_black, yellow")
  else if negb (str_mem position ["bottom"; "top"]) then
    respond (RJson 400 "position must be one of: bottom, top")
  else
    try_catch (
      ip <- fresh "input" ;; set_local "inputPath" [ip] ;; write_file ip ;;
      sp <- fresh "subtitles" ;; set_local "srtPath" [sp] ;; write_file sp ;;
      (if a_translated a then
         tp <- fresh "translated" ;; set_local "translatedSrtPath" [tp] ;; write_file tp
       else ret tt) ;;
      tps <- get_local "translatedSrtPath" ;;
      log_event ERun ;;
      if env_run_ok env
      then respond (RPipe "video/mp4") ;; unlink_all_quiet ([ip; sp] ++ tps)
      else unlink_all_quiet ([ip; sp] ++ tps) ;; pipe_error "video/mp4")
    (fun e =>
       i <- get_local "inputPath" ;; s <- get_local "srtPath" ;;
       t <- get_local "translatedSrtPath" ;; unlink_all_quiet (i ++ s ++ t) ;;
       respond (RJson 500 (msg_or e "Failed to burn subtitles"))).

(** add_audio_track on the multipart path (lines 2430-2479). *)
Definition multipart_add_audio_track (a : Args) : M unit :=
  try_catch (
    inputPath <- fresh "input" ;; set_local "inputPath" [inputPath] ;;
    write_file inputPath ;;
    _extension <- (match a_audioFile a with inl e => throw e | inr x => ret x end) ;;
    audioInputPath <- fresh "audio" ;; set_local "audioInputPath" [audioInputPath] ;;
    write_file audioInputPath ;;
    _sourceHasAudio <- checkHasAudioStream env inputPath ;;
    let mode := or_default (a_mode a) "replace" in
    if negb (mode_ok mode) then respond (RJson 400 mode_error) ;; early_return
    else if volume_bad (volume_of a) then respond (RJson 400 volume_error) ;; early_return
    else
      log_event ERun ;;
      if env_run_ok env
      then respond (RPipe "video/mp4") ;; unlink_all_quiet [inputPath; audioInputPath]
      else unlink_all_quiet [inputPath; audioInputPath] ;; pipe_error "video/mp4")
  (fun e =>
     i <- get_local "inputPath" ;; au <- get_local "audioInputPath" ;;
     unlink_all_quiet (i ++ au) ;;
     respond (RJson 500 (msg_or e "Failed to process video"))).

(** The multipart /api/process-video path (lines 2320-2480). *)
Definition multipart_handler (req : MultiReq) : M unit :=
  match mq_multerError req with
  | Some e => respond (RJson 400 e)
  | None =>
    if negb (mq_file req) then respond (RJson 400 "No video file provided") else
    match op_given (mq_operation req) with
    | None => respond (RJson 400 "No operation specified")
    | Some op =>
      if negb (String.eqb op "add_audio_track" || String.eqb op "burn_subtitles") then
        respond (RJson 400 "Use streaming request (video body + x-operation header) for this operation")
      else if String.eqb op "burn_subtitles" then burn_subtitles (mq_args req)
      else multipart_add_audio_track (mq_args req)
    end
  end.

(** What [await fs.writeFile(p, data)] does: it succeeds, or it fails
    after opening (creating) [p], leaving a partial file (ENOSPC while
    writing, for one), or it fails before creating it (EACCES, for one). *)
Inductive write_outcome : Type :=
| WOk
| WFailAfterCreate (msg : string)
| WFailBeforeCreate (msg : string).

Definition write_file_fs (w : path -> write_outcome) (p : path) : M unit :=
  match w p with
  | WOk => write_file p
  | WFailAfterCreate e => add_file p ;; log_event (EWrite p) ;; throw e
  | WFailBeforeCreate e => throw e
  end.

(** [for (i ...) { p = path.join(tmpDir, `input-${randomUUID()}-${i}.mp4`);
      await fs.writeFile(p, ...); inputPaths.push(p); tempFiles.push(p); }] *)
Fixpoint write_inputs (w : path -> write_outcome) (k : nat) : M (list path) :=
  match k with
  | O => ret []
  | S k' =>
      p <- fresh "input" ;; write_file_fs w p ;; push_local "tempFiles" p ;;
      ps <- write_inputs w k' ;; ret (p :: ps)
  end.

(** The /api/transition-videos handler (lines 2857-3024); [w] says how
    each [fs.writeFile] of an upload ends. *)
Definition transition_handler_fs (w : path -> write_outcome) (req : TransReq) : M unit :=
  try_catch (
    if Nat.ltb (tq_nfiles req) 2 then
      respond (RJson 400 "At least two video files are required for transitions") ;; early_return
    else match op_given (tq_transition req) with
    | None => respond (RJson 400 "No transition type specified") ;; early_return
    | Some t =>
      let transitionDuration := match tq_duration req with Some x => x | None => j1 end in
      inputPaths <- write_inputs w (tq_nfiles req) ;;
      outputPath <- fresh "output" ;; set_local "outputPath" [outputPath] ;;
      hasAudio <- mapM (checkHasAudioStream env) inputPaths ;;
      (match transition_build t (List.length inputPaths) transitionDuration hasAudio with
       | Some (Built _) => run_engine env (Some outputPath)
       | Some (BuildError e) => throw e
       | None => throw (append "Unknown transition type: " t)
       end) ;;
      read_file outputPath ;;
      tempFiles <- get_local "tempFiles" ;; unlink_all tempFiles ;; unlink outputPath ;;
      respond (RSend "video/mp4")
    end)
  (fun e =>
     tempFiles <- get_local "tempFiles" ;; unlink_all_quiet tempFiles ;;
     o <- get_local "outputPath" ;; unlink_all_quiet o ;;
     respond (RJson 500 (msg_or e "Failed to process video transition"))).

(** The handler when every write succeeds. *)
Definition transition_handler (req : TransReq) : M unit :=
  transition_handler_fs (fun _ => WOk) req.

End Requests.

(** Observations on a finished run. *)
Definition created_files (l : list event) : list path :=
  flat_map (fun e => match e with EWrite p | ECreate p => [p] | _ => [] end) l.

Definition engine_invoked (l : list event) : bool :=
  existsb (fun e => match e with ERun => true | _ => false end) l.

Definition responses (l : list event) : list response :=
  flat_map (fun e => match e with ERespond r => [r] | _ => [] end) l.

Section StringHelpers.
Local Open Scope nat_scope.

(** ** Characters and strings

    A JavaScript string is modelled as a Rocq [string] whose characters
    are the UTF-16 code units below 256 (Latin-1); on that range the
    classes used by the code are: [\s] and [trim] remove the code units
    9-13, 32 and 160; [\d] is 0-9; [toLowerCase] maps A-Z and
    U+00C0-U+00DE except U+00D7 one block up. *)

Definition chr (n : nat) : Ascii.ascii := Ascii.ascii_of_nat n.
Definition code (c : Ascii.ascii) : nat := Ascii.nat_of_ascii c.

Definition is_js_space (c : Ascii.ascii) : bool :=
  match code c with 9 | 10 | 11 | 12 | 13 | 32 | 160 => true | _ => false end.

Definition is_digit (c : Ascii.ascii) : bool := Nat.leb 48 (code c) && Nat.leb (code c) 57.
Definition is_upper (c : Ascii.ascii) : bool := Nat.leb 65 (code c) && Nat.leb (code c) 90.
Definition is_lower (c : Ascii.ascii) : bool := Nat.leb 97 (code c) && Nat.leb (code c) 122.
Definition is_alnum (c : Ascii.ascii) : bool := is_digit c || is_upper c || is_lower c.

Definition char_eqb (c : Ascii.ascii) (n : nat) : bool := Nat.eqb (code c) n.

(** [[A-Za-z0-9+/=]] *)
Definition is_b64 (c : Ascii.ascii) : bool :=
  is_alnum c || char_eqb c 43 || char_eqb c 47 || char_eqb c 61.

(** [[a-zA-Z0-9.+-]] *)
Definition is_subtype_char (c : Ascii.ascii) : bool :=
  is_alnum c || char_eqb c 46 || char_eqb c 43 || char_eqb c 45.

(** [String.prototype.toLowerCase] on one code unit. *)
Definition to_lower_char (c : Ascii.ascii) : Ascii.ascii :=
  if is_upper c || (Nat.leb 192 (code c) && Nat.leb (code c) 222 && negb (Nat.eqb (code c) 215))
  then chr (code c + 32) else c.

Fixpoint to_lower (s : string) : string :=
  match s with EmptyString => EmptyString | String c s' => String (to_lower_char c) (to_lower s') end.

(** leading part of [trim] *)
Fixpoint ltrim (s : string) : string :=
  match s with
  | EmptyString => EmptyString
  | String c s' => if is_js_space c then ltrim s' else s
  end.

(** trailing part of [trim] *)
Fixpoint rtrim (s : string) : string :=
  match s with
  | EmptyString => EmptyString
  | String c s' =>
      let r := rtrim s' in
      if String.eqb r "" && is_js_space c then EmptyString else String c r
  end.

(** [s.trim()] *)
Definition trim (s : string) : string := rtrim (ltrim s).

(** [s.replace(/\s+/g, '')] *)
Fixpoint remove_ws (s : string) : string :=
  match s with
  | EmptyString => EmptyString
  | String c s' => if is_js_space c then remove_ws s' else String c (remove_ws s')
  end.

Fixpoint str_forallb (f : Ascii.ascii -> bool) (s : string) : bool :=
  match s with EmptyString => true | String c s' => f c && str_forallb f s' end.

Fixpoint str_filter (f : Ascii.ascii -> bool) (s : string) : string :=
  match s with
  | EmptyString => EmptyString
  | String c s' => if f c then String c (str_filter f s') else str_filter f s'
  end.

(** The longest prefix of characters satisfying [f], and the rest. *)
Fixpoint span (f : Ascii.ascii -> bool) (s : string) : string * string :=
  match s with
  | EmptyString => (EmptyString, EmptyString)
  | String c s' =>
      if f c then let (a, b) := span f s' in (String c a, b) else (EmptyString, s)
  end.

(** [s.split(sep)[0]] for a one-character separator with code [n]. *)
Definition before_char (n : nat) (s : string) : string :=
  fst (span (fun c => negb (char_eqb c n)) s).

Fixpoint strip_prefix (p s : string) : option string :=
  match p, s with
  | EmptyString, _ => Some s
  | String a p', String b s' => if Ascii.eqb a b then strip_prefix p' s' else None
  | String _ _, EmptyString => None
  end.

(** [s.split(sep)] for a one-character separator with code [n]. *)
Fixpoint split_on (n : nat) (s : string) : list string :=
  match s with
  | EmptyString => [EmptyString]
  | String c s' =>
      if char_eqb c n then EmptyString :: split_on n s'
      else match split_on n s' with
           | [] => [String c EmptyString]
           | w :: ws => String c w :: ws
           end
  end.

(** ** parseAudioDataUri and parseAudioInput (lines 1781-1824) *)

(** [mimeSubtype.split('+')[0].replace(/^x-/, '').replace(/[^a-zA-Z0-9]/g, '') || 'audio'] *)
Definition audio_extension (mimeSubtype : string) : string :=
  let first := before_char 43 mimeSubtype in
  let noX := match strip_prefix "x-" first with Some r => r | None => first end in
  let clean := str_filter is_alnum noX in
  if String.eqb clean "" then "audio" else clean.

(** [audioFile.match(/^data:audio\/([a-zA-Z0-9.+-]+);base64,([A-Za-z0-9+/=\s]+)$/)]:
    the subtype class excludes [;], so the group ends at the first
    character outside it, which must start [;base64,].  The result is the
    extension and the text handed to [Buffer.from(_, 'base64')]. *)
Definition parseAudioDataUri (audioFile : string) : option (string * string) :=
  match strip_prefix "data:audio/" audioFile with
  | None => None
  | Some r =>
      let (mimeSubtype, rest) := span is_subtype_char r in
      if String.eqb mimeSubtype "" then None else
      match strip_prefix ";base64," rest with
      | None => None
      | Some base64Data =>
          if negb (String.eqb base64Data "") &&
             str_forallb (fun c => is_b64 c || is_js_space c) base64Data
          then Some (audio_extension mimeSubtype, remove_ws base64Data)
          else None
      end
  end.

(** [parseAudioInput(audioFile)]: [None] stands for a value that is not a
    string; [inl] is the message thrown, [inr] the extension and the
    base64 text. *)
Definition parseAudioInput (audioFile : option string) : string + (string * string) :=
  match audioFile with
  | None => inl "audioFile must be a base64-encoded string"
  | Some s =>
      let trimmed := trim s in
      if String.eqb trimmed "" then inl "audioFile cannot be empty" else
      match parseAudioDataUri trimmed with
      | Some r => inr r
      | None =>
          let sanitizedBase64 := remove_ws trimmed in
          if negb (String.eqb sanitizedBase64 "") && str_forallb is_b64 sanitizedBase64
          then inr ("audio", sanitizedBase64)
          else inl "audioFile is not valid base64 data"
      end
  end.

(** ** getMimeTypeToFormat and getExtFromMimeType (lines 1826-1866) *)

(** A property read [map[key]] on an object literal: an own property, a
    property inherited from Object.prototype (a function, or the
    prototype itself for [__proto__]), or [undefined]. *)
Inductive prop_value : Type :=
| PVStr (s : string)
| PVProto (name : string).

Definition object_proto_names : list string :=
  ["constructor"; "__defineGetter__"; "__defineSetter__"; "hasOwnProperty";
   "__lookupGetter__"; "__lookupSetter__"; "isPrototypeOf"; "propertyIsEnumerable";
   "toString"; "valueOf"; "__proto__"; "toLocaleString"].

Fixpoint assoc_str (k : string) (m : list (string * string)) : option string :=
  match m with
  | [] => None
  | (k', v) :: m' => if String.eqb k k' then Some v else assoc_str k m'
  end.

(** [map[base] || d] *)
Definition obj_lookup_or (m : list (string * string)) (base d : string) : prop_value :=
  match assoc_str base m with
  | Some v => if String.eqb v "" then PVStr d else PVStr v
  | None => if str_mem base object_proto_names then PVProto base else PVStr d
  end.

(** [(mimeType || '').split(';')[0].trim().toLowerCase()] *)
Definition mime_base (mimeType : option string) : string :=
  to_lower (trim (before_char 59 (or_default mimeType ""))).

Definition mime_format_map : list (string * string) :=
  [("video/mp4", "mp4"); ("video/webm", "webm"); ("video/quicktime", "mov");
   ("video/x-msvideo", "avi"); ("video/x-matroska", "matroska"); ("video/x-flv", "flv");
   ("video/ogg", "ogg"); ("audio/mpeg", "mp3"); ("audio/wav", "wav"); ("audio/aac", "aac");
   ("audio/ogg", "ogg"); ("audio/flac", "flac"); ("audio/mp4", "m4a")].

Definition mime_ext_map : list (string * string) :=
  [("video/mp4", "mp4"); ("video/webm", "webm"); ("video/quicktime", "mov");
   ("video/x-msvideo", "avi"); ("video/x-matroska", "mkv"); ("video/x-flv", "flv");
   ("video/ogg", "ogv"); ("audio/mpeg", "mp3"); ("audio/wav", "wav"); ("audio/aac", "aac");
   ("audio/ogg", "ogg"); ("audio/flac", "flac"); ("audio/mp4", "m4a")].

Definition getMimeTypeToFormat (mimeType : option string) : prop_value :=
  obj_lookup_or mime_format_map (mime_base mimeType) "mp4".

Definition getExtFromMimeType (mimeType : option string) : prop_value :=
  obj_lookup_or mime_ext_map (mime_base mimeType) "mp4".

(** The streaming path's [fileContentType]: the lowercased [content-type]
    header up to its first [;], trimmed, or [video/mp4] (lines 2317, 2486). *)
Definition fileContentType (contentType : option string) : string :=
  let t := trim (before_char 59 (to_lower (or_default contentType ""))) in
  if String.eqb t "" then "video/mp4" else t.

(** The lists /api/supported-formats answers with (lines 2116-2131). *)
Definition advertised_video_formats : list string := ["mp4"; "webm"; "mov"; "avi"; "mkv"; "flv"; "ogv"].
Definition advertised_audio_formats : list string := ["mp3"; "wav"; "aac"; "ogg"; "flac"; "m4a"; "wma"].

(** ** srtToVtt (lines 2133-2139) *)

Definition nl : string := String (chr 10) EmptyString.

(** [.replace(/\r\n/g, '\n')] *)
Fixpoint crlf_pass (s : string) : string :=
  match s with
  | EmptyString => EmptyString
  | String a t =>
      match t with
      | String b r =>
          if char_eqb a 13 && char_eqb b 10 then String b (crlf_pass r) else String a (crlf_pass t)
      | EmptyString => String a EmptyString
      end
  end.

(** [/(\d{2}:\d{2}:\d{2}),(\d{3})/] matches at the head of [s]. *)
Definition ts_at (s : string) : bool :=
  match s with
  | String a1 (String a2 (String c1 (String a3 (String a4 (String c2 (String a5
      (String a6 (String cm (String m1 (String m2 (String m3 _))))))))))) =>
      is_digit a1 && is_digit a2 && char_eqb c1 58 && is_digit a3 && is_digit a4 &&
      char_eqb c2 58 && is_digit a5 && is_digit a6 && char_eqb cm 44 &&
      is_digit m1 && is_digit m2 && is_digit m3
  | _ => false
  end.

(** [.replace(/(\d{2}:\d{2}:\d{2}),(\d{3})/g, '$1.$2')]: the pattern has a
    fixed length of 12, so the leftmost-match scan tries it at each
    position ([skip = 0]); after a match it copies the 12 matched
    characters, the comma at offset 8 replaced by '.', and resumes behind
    them ([skip] counts the matched characters still to copy). *)
Fixpoint ts_scan (skip : nat) (s : string) : string :=
  match s with
  | EmptyString => EmptyString
  | String c t =>
      match skip with
      | S k => String (if Nat.eqb k 3 then chr 46 else c) (ts_scan k t)
      | O => if ts_at s then String c (ts_scan 11 t) else String c (ts_scan 0 t)
      end
  end.

Definition ts_pass (s : string) : string := ts_scan 0 s.

Definition srtToVtt (srt : string) : string :=
  append ("WEBVTT" ++ nl ++ nl) (ts_pass (crlf_pass srt)).

(** ** getBaseUrlFromRequest and the checkout price (lines 1774-1779, 1578-1587, 3214-3231) *)

(** [s.replace(/\/+$/, '')]: the run of slashes that ends the string. *)
Fixpoint strip_trailing_slashes (s : string) : string :=
  match s with
  | EmptyString => EmptyString
  | String c s' =>
      let r := strip_trailing_slashes s' in
      if String.eqb r "" && char_eqb c 47 then EmptyString else String c r
  end.

(** [APP_BASE_URL] (None: unset), [req.protocol] and [req.get('host')]. *)
Definition getBaseUrlFromRequest (appBaseUrl : option string) (protocol host : string) : string :=
  match appBaseUrl with
  | Some u => if String.eqb u "" then append protocol (append "://" host)
              else strip_trailing_slashes u
  | None => append protocol (append "://" host)
  end.

Definition fallback_price_id : string := "price_1StDJe4OymfcnKESq2dIraNE".

(** [process.env.STRIPE_SUBSCRIPTION_PRICE_ID || 'price_...'] *)
Definition defaultStripePriceId (envPrice : option string) : string :=
  or_default envPrice fallback_price_id.

(** [new Set([default, ...(env || '').split(',').map(id => id.trim()).filter(Boolean)])],
    as the list of its members. *)
Definition allowedStripePriceIds (envPrice envAllowed : option string) : list string :=
  defaultStripePriceId envPrice ::
  filter (fun x => negb (String.eqb x "")) (map trim (split_on 44 (or_default envAllowed ""))).

(** [priceId] of the JSON body: absent, a string, or another JSON value,
    falsy ([null], [false], [0]) or truthy. *)
Inductive price_arg : Type :=
| PriceAbsent
| PriceStr (s : string)
| PriceFalsy
| PriceTruthy.

Inductive checkout_out : Type :=
| CheckoutError (status : nat) (error : string)
| CheckoutCreate (price successUrl cancelUrl : string).

(** /api/create-checkout-session up to the Stripe call (lines 3214-3231). *)
Definition create_checkout (stripeConfigured : bool) (envPrice envAllowed appBaseUrl : option string)
  (protocol host : string) (priceId : price_arg) : checkout_out :=
  if negb stripeConfigured then CheckoutError 503 "Stripe is not configured on this server" else
  let default := defaultStripePriceId envPrice in
  let selected := match priceId with
                  | PriceStr s => if String.eqb s "" then Some default else Some s
                  | PriceTruthy => None
                  | PriceAbsent | PriceFalsy => Some default
                  end in
  match selected with
  | Some p =>
      if str_mem p (allowedStripePriceIds envPrice envAllowed) then
        let baseUrl := getBaseUrlFromRequest appBaseUrl protocol host in
        CheckoutCreate p (append baseUrl "/success?session_id={CHECKOUT_SESSION_ID}")
                         (append baseUrl "/")
      else CheckoutError 400 "Invalid priceId"
  | None => CheckoutError 400 "Invalid priceId"
  end.

(** ** Sample access tokens (lines 1576, 1588-1621) *)

(** [Math.max(a, b)] *)
Definition jmax (a b : jsnum) : jsnum :=
  match a, b with
  | JNaN, _ | _, JNaN => JNaN
  | _, _ => if jlt a b then b else a
  end.

(** [Math.max(60_000, Number(process.env.SAMPLE_TOKEN_TTL_MS || 10 * 60 * 1000))];
    the argument is [Number] of the variable, [None] when it is unset
    or empty. *)
Definition SAMPLE_TOKEN_TTL_MS (envTtl : option jsnum) : jsnum :=
  jmax (JFin 60000) (match envTtl with Some n => n | None => JFin 600000 end).

(** [sampleAccessTokens], a Map from token to expiry, in insertion order. *)
Definition token_map : Type := list (string * jsnum).

Fixpoint map_get (k : string) (m : token_map) : option jsnum :=
  match m with
  | [] => None
  | (k', v) :: m' => if String.eqb k k' then Some v else map_get k m'
  end.

(** [Map.prototype.set]: an existing key keeps its place. *)
Fixpoint map_set (k : string) (v : jsnum) (m : token_map) : token_map :=
  match m with
  | [] => [(k, v)]
  | (k', v') :: m' => if String.eqb k k' then (k', v) :: m' else (k', v') :: map_set k v m'
  end.

Definition map_delete (k : string) (m : token_map) : token_map :=
  filter (fun e => negb (String.eqb k (fst e))) m.

Definition hex_digit (n : nat) : Ascii.ascii :=
  if Nat.ltb n 10 then chr (48 + n) else chr (87 + n).

(** [buf.toString('hex')] of a list of bytes *)
Fixpoint hex_of_bytes (bs : list nat) : string :=
  match bs with
  | [] => EmptyString
  | b :: bs' => String (hex_digit (b / 16)) (String (hex_digit (b mod 16)) (hex_of_bytes bs'))
  end.

(** [issueSampleAccessToken()] with [randomBytes(32)] given as [bytes] and
    [Date.now()] as [now]. *)
Definition issueSampleAccessToken (ttl : jsnum) (bytes : list nat) (now : Z) (m : token_map)
  : string * token_map :=
  let token := hex_of_bytes bytes in
  (token, map_set token (dadd (JFin (inject_Z now)) ttl) m).

(** [!x] for a number or [undefined] *)
Definition num_falsy (o : option jsnum) : bool :=
  match o with
  | None => true
  | Some (JFin q) => Qeq_bool q 0
  | Some JNaN => true
  | Some _ => false
  end.

(** [validateSampleAccessToken(token)]: [None] for a value that is not a string. *)
Definition validateSampleAccessToken (now : Z) (token : option string) (m : token_map)
  : bool * token_map :=
  match token with
  | None => (false, m)
  | Some t =>
      if Nat.ltb (String.length t) 32 then (false, m) else
      let expiresAt := map_get t m in
      if num_falsy expiresAt ||
         (match expiresAt with Some e => jlt e (JFin (inject_Z now)) | None => false end)
      then (false, map_delete t m)
      else (true, m)
  end.

(** The cleanup timer's body: delete every entry that expired before [now]. *)
Definition sample_token_cleanup (now : Z) (m : token_map) : token_map :=
  filter (fun e => negb (jlt (snd e) (JFin (inject_Z now)))) m.

(** The parts of a request the middleware reads. *)
Record MwUser : Type := mkMwUser {
  u_id : bool;                (** [req.user.id] is truthy *)
  u_has_subscription : bool   (** [req.user.has_subscription] is truthy *)
}.

Record MwReq : Type := mkMwReq {
  mr_token : option string;     (** [req.headers['sample-access-token']] *)
  mr_authenticated : bool;      (** [req.isAuthenticated && req.isAuthenticated()] *)
  mr_user : option MwUser       (** [req.user] *)
}.

Inductive mw_result : Type :=
| MNext
| MDeny (status : nat) (error : string).

(** [isValidSampleModeRequest(req)]; [allow] is [ALLOW_UNAUTH_SAMPLE_MODE]. *)
Definition isValidSampleModeRequest (allow : bool) (now : Z) (req : MwReq) (m : token_map)
  : bool * token_map :=
  if negb allow then (false, m) else validateSampleAccessToken now (mr_token req) m.

Definition requireAuthenticatedUser (allow : bool) (now : Z) (req : MwReq) (m : token_map)
  : mw_result * token_map :=
  let (ok, m') := isValidSampleModeRequest allow now req m in
  if ok then (MNext, m') else
  if (match mr_token req with Some t => negb (String.eqb t "") | None => false end)
  then (MDeny 401 "Invalid or expired sample access token", m') else
  if negb (mr_authenticated req) then (MDeny 401 "Authentication required", m') else
  if negb (match mr_user req with Some u => u_id u | None => false end)
  then (MDeny 401 "Invalid user session", m') else
  (MNext, m').

Definition requireActiveSubscription (allow : bool) (now : Z) (req : MwReq) (m : token_map)
  : mw_result * token_map :=
  let (ok, m') := isValidSampleModeRequest allow now req m in
  if ok then (MNext, m') else
  if negb (match mr_user req with Some u => u_has_subscription u | None => false end)
  then (MDeny 403 "Active subscription required", m') else
  (MNext, m').

(** The guard of the media routes: [requireAuthenticatedUser] at time
    [t1], then, if it calls [next()], [requireActiveSubscription] at [t2]. *)
Definition route_guard (allow : bool) (t1 t2 : Z) (req : MwReq) (m : token_map)
  : mw_result * token_map :=
  let (r, m1) := requireAuthenticatedUser allow t1 req m in
  match r with
  | MNext => requireActiveSubscription allow t2 req m1
  | MDeny s e => (MDeny s e, m1)
  end.

Definition digits (n : nat) (s : string) : bool :=
  Nat.eqb (String.length s) n && str_forallb is_digit s.

Definition srt_time (hh mm ss ms : string) (sep : Ascii.ascii) : string :=
  append hh (append ":" (append mm (append ":" (append ss (String sep ms))))).

Fixpoint dots_for_commas (s t : string) : bool :=
  match s, t with
  | EmptyString, EmptyString => true
  | String a s', String b t' =>
      (Ascii.eqb a b || (char_eqb a 44 && char_eqb b 46)) && dots_for_commas s' t'
  | _, _ => false
  end.

Fixpoint crlf_ok (s : string) : bool :=
  match s with
  | EmptyString => true
  | String a t =>
      (negb (char_eqb a 13) || match t with String b _ => char_eqb b 10 | EmptyString => false end)
      && crlf_ok t
  end.

Fixpoint ends_with_slash (s : string) : bool :=
  match s with
  | EmptyString => false
  | String c EmptyString => char_eqb c 47
  | String _ s' => ends_with_slash s'
  end.

End StringHelpers.

(** * Proofs *)

(** ** Arithmetic of the JavaScript-number model *)

Lemma Qltb_iff (a b : Q) : Qltb a b = true <-> a < b.
Proof.
  unfold Qltb. rewrite negb_true_iff. split; intro H.
  - apply Qnot_le_lt. intro H'. apply Qle_bool_iff in H'. congruence.
  - destruct (Qle_bool b a) eqn:E; [|reflexivity].
    apply Qle_bool_iff in E. exfalso. apply (Qlt_not_le a b); assumption.
Qed.

Lemma Qltb_false (a b : Q) : Qltb a b = false <-> b <= a.
Proof.
  unfold Qltb. rewrite negb_false_iff. apply Qle_bool_iff.
Qed.

(** ** Rounding to binary64: monotonicity *)

Lemma two_pow_pos (e : Z) : 0 < two_pow e.
Proof. apply Qpower_0_lt. reflexivity. Qed.

Lemma two_pow_plus (a b : Z) : two_pow (a + b) == two_pow a * two_pow b.
Proof. apply Qpower_plus. discriminate. Qed.

Lemma two_pow_le (a b : Z) : (a <= b)%Z -> two_pow a <= two_pow b.
Proof. intro H. apply Qpower_le_compat_l; [exact H|]. unfold Qle; simpl; lia. Qed.

Lemma two_pow_lt_inv (a b : Z) : two_pow a < two_pow b -> (a < b)%Z.
Proof. intro H. apply (Qpower_lt_compat_l_inv (2 # 1)); [exact H|reflexivity]. Qed.

Lemma two_pow_le_inv (a b : Z) : two_pow a <= two_pow b -> (a <= b)%Z.
Proof. intro H. apply (Qpower_le_compat_l_inv (2 # 1)); [exact H|reflexivity]. Qed.

Lemma two_pow_Z (n : Z) : (0 <= n)%Z -> two_pow n == inject_Z (2 ^ n).
Proof. intro H. unfold two_pow. rewrite (Zpower_Qpower 2 n H). reflexivity. Qed.

Lemma Qlog2_floor_spec (a : Q) : 0 < a ->
  two_pow (Qlog2_floor a) <= a /\ a < two_pow (Qlog2_floor a + 1).
Proof.
  destruct a as [n d]. intro Ha.
  assert (Hn : (0 < n)%Z) by (unfold Qlt in Ha; simpl in Ha; lia).
  unfold Qlog2_floor. cbn [Qnum Qden].
  set (ln := Z.log2 n). set (ld := Z.log2 (Zpos d)).
  destruct (Z.log2_spec n Hn) as [N1 N2]. destruct (Z.log2_spec (Zpos d) eq_refl) as [D1 D2].
  fold ln in N1, N2. fold ld in D1, D2.
  assert (Ln : (0 <= ln)%Z) by apply Z.log2_nonneg.
  assert (Ld : (0 <= ld)%Z) by apply Z.log2_nonneg.
  assert (QN1 : two_pow ln <= inject_Z n) by (rewrite two_pow_Z by lia; rewrite <- Zle_Qle; exact N1).
  assert (QN2 : inject_Z n < two_pow (ln + 1)).
  { rewrite two_pow_Z by lia. rewrite <- Zlt_Qlt. rewrite <- Z.add_1_r in N2. exact N2. }
  assert (QD1 : two_pow ld <= inject_Z (Zpos d)) by (rewrite two_pow_Z by lia; rewrite <- Zle_Qle; exact D1).
  assert (QD2 : inject_Z (Zpos d) < two_pow (ld + 1)).
  { rewrite two_pow_Z by lia. rewrite <- Zlt_Qlt. rewrite <- Z.add_1_r in D2. exact D2. }
  assert (Dp : 0 < inject_Z (Zpos d)) by (unfold Qlt; simpl; lia).
  set (k := (ln - ld)%Z).
  assert (LO : two_pow (k - 1) < n # d).
  { rewrite Qmake_Qdiv. apply Qlt_shift_div_l; [exact Dp|].
    apply Qlt_le_trans with (two_pow (k - 1) * two_pow (ld + 1)).
    - apply Qmult_lt_l; [apply two_pow_pos|exact QD2].
    - rewrite <- two_pow_plus. replace (k - 1 + (ld + 1))%Z with ln by (unfold k; ring). exact QN1. }
  assert (HI : n # d < two_pow (k + 1)).
  { rewrite Qmake_Qdiv. apply Qlt_shift_div_r; [exact Dp|].
    apply Qlt_le_trans with (two_pow (k + 1) * two_pow ld).
    - rewrite <- two_pow_plus. replace (k + 1 + ld)%Z with (ln + 1)%Z by (unfold k; ring). exact QN2.
    - apply Qmult_le_l; [apply two_pow_pos|exact QD1]. }
  destruct (Qle_bool (two_pow k) (n # d)) eqn:B.
  - apply Qle_bool_iff in B. split; assumption.
  - split.
    + apply Qlt_le_weak. exact LO.
    + replace (k - 1 + 1)%Z with k by ring. apply Qnot_le_lt. intro C. apply Qle_bool_iff in C. congruence.
Qed.

Lemma Qlog2_floor_unique (a : Q) (j : Z) : 0 < a ->
  two_pow j <= a -> a < two_pow (j + 1) -> Qlog2_floor a = j.
Proof.
  intros Ha H1 H2. destruct (Qlog2_floor_spec a Ha) as [L1 L2].
  assert (A : (j < Qlog2_floor a + 1)%Z) by (apply two_pow_lt_inv; eapply Qle_lt_trans; eassumption).
  assert (B : (Qlog2_floor a < j + 1)%Z) by (apply two_pow_lt_inv; eapply Qle_lt_trans; eassumption).
  lia.
Qed.

Lemma Qlog2_floor_mono (x y : Q) : 0 < x -> x <= y -> (Qlog2_floor x <= Qlog2_floor y)%Z.
Proof.
  intros Hx Hxy. destruct (Qlog2_floor_spec x Hx) as [X1 X2].
  destruct (Qlog2_floor_spec y (Qlt_le_trans _ _ _ Hx Hxy)) as [Y1 Y2].
  assert (Qlog2_floor x < Qlog2_floor y + 1)%Z; [|lia].
  apply two_pow_lt_inv. apply Qle_lt_trans with y; [|exact Y2].
  apply Qle_trans with x; assumption.
Qed.

Lemma rne_bounds (u : Q) : (Qfloor u <= rne u <= Qfloor u + 1)%Z.
Proof.
  unfold rne. destruct (Qltb _ _); [lia|]. destruct (Qltb _ _); [lia|].
  destruct (Z.even _); lia.
Qed.

Lemma rne_Z (z : Z) : rne (inject_Z z) = z.
Proof.
  unfold rne. rewrite Qfloor_Z.
  replace (Qltb (inject_Z z - inject_Z z) (1 # 2)) with true; [reflexivity|].
  symmetry. apply Qltb_iff. lra.
Qed.

Lemma rne_wd (u v : Q) : u == v -> rne u = rne v.
Proof.
  intro H. unfold rne. rewrite (Qfloor_comp u v H).
  assert (E : u - inject_Z (Qfloor v) == v - inject_Z (Qfloor v)) by (rewrite H; reflexivity).
  destruct (Qltb (u - _) (1 # 2)) eqn:A, (Qltb (v - _) (1 # 2)) eqn:B;
    try (apply Qltb_iff in A); try (apply Qltb_false in A);
    try (apply Qltb_iff in B); try (apply Qltb_false in B); try (exfalso; lra).
  - reflexivity.
  - destruct (Qltb (1 # 2) (u - _)) eqn:C, (Qltb (1 # 2) (v - _)) eqn:D;
      try (apply Qltb_iff in C); try (apply Qltb_false in C);
      try (apply Qltb_iff in D); try (apply Qltb_false in D); try (exfalso; lra); reflexivity.
Qed.

Lemma rne_mono (u v : Q) : u <= v -> (rne u <= rne v)%Z.
Proof.
  intro H. destruct (Z.eq_dec (Qfloor u) (Qfloor v)) as [E|E].
  - unfold rne. rewrite E. set (f := Qfloor v).
    assert (R : u - inject_Z f <= v - inject_Z f) by lra.
    destruct (Qltb (u - _) (1 # 2)) eqn:A; [destruct (rne_bounds v) as [B _]; unfold rne in B; fold f in B; lia|].
    apply Qltb_false in A.
    destruct (Qltb (v - _) (1 # 2)) eqn:B; [apply Qltb_iff in B; exfalso; lra|].
    destruct (Qltb (1 # 2) (u - _)) eqn:C.
    + apply Qltb_iff in C.
      replace (Qltb (1 # 2) (v - inject_Z f)) with true; [lia|].
      symmetry; apply Qltb_iff; lra.
    + destruct (Qltb (1 # 2) (v - _)) eqn:D; [destruct (Z.even f); lia|].
      reflexivity.
  - assert (L : (Qfloor u < Qfloor v)%Z) by (pose proof (Qfloor_resp_le u v H); lia).
    destruct (rne_bounds u), (rne_bounds v). lia.
Qed.

Lemma rne_nonneg (u : Q) : 0 <= u -> (0 <= rne u)%Z.
Proof. intro H. rewrite <- (rne_Z 0). apply rne_mono. exact H. Qed.

Lemma round_exp_mono (x y : Q) : 0 < x -> x <= y -> (round_exp x <= round_exp y)%Z.
Proof. intros Hx H. unfold round_exp. pose proof (Qlog2_floor_mono x y Hx H). lia. Qed.

Lemma round_exp_upper (a : Q) : 0 < a -> a / two_pow (round_exp a) < two_pow 53.
Proof.
  intro Ha. apply Qlt_shift_div_r; [apply two_pow_pos|].
  rewrite <- two_pow_plus. destruct (Qlog2_floor_spec a Ha) as [_ H].
  apply Qlt_le_trans with (1 := H). apply two_pow_le. unfold round_exp. lia.
Qed.

Lemma round_exp_lower (a : Q) : 0 < a -> (emin < round_exp a)%Z ->
  two_pow 52 <= a / two_pow (round_exp a).
Proof.
  intros Ha He. apply Qle_shift_div_l; [apply two_pow_pos|].
  rewrite <- two_pow_plus. destruct (Qlog2_floor_spec a Ha) as [H _].
  unfold round_exp in *. replace (52 + Z.max emin (Qlog2_floor a - 52))%Z with (Qlog2_floor a) by lia.
  exact H.
Qed.

Lemma rne_two_pow (k : Z) : (0 <= k)%Z -> rne (two_pow k) = (2 ^ k)%Z.
Proof. intro H. rewrite (rne_wd _ _ (two_pow_Z k H)). apply rne_Z. Qed.

Lemma Qdiv_le_mono (x y t : Q) : 0 < t -> x <= y -> x / t <= y / t.
Proof.
  intros Ht H. unfold Qdiv. apply Qmult_le_compat_r; [exact H|].
  apply Qlt_le_weak. apply Qinv_lt_0_compat. exact Ht.
Qed.

Lemma round_pos_value_mono (x y : Q) : 0 < x -> x <= y -> round_pos_value x <= round_pos_value y.
Proof.
  intros Hx H. assert (Hy : 0 < y) by lra. unfold round_pos_value.
  pose proof (round_exp_mono x y Hx H) as EM.
  set (ex := round_exp x) in *. set (ey := round_exp y) in *.
  destruct (Z.eq_dec ex ey) as [E|E].
  - rewrite <- E. apply Qmult_le_compat_r; [|apply Qlt_le_weak, two_pow_pos].
    rewrite <- Zle_Qle. apply rne_mono. apply Qdiv_le_mono; [apply two_pow_pos|exact H].
  - assert (LT : (ex < ey)%Z) by lia.
    assert (Mx : (rne (x / two_pow ex) <= 2 ^ 53)%Z).
    { rewrite <- (rne_two_pow 53) by lia. apply rne_mono. apply Qlt_le_weak. apply round_exp_upper. exact Hx. }
    assert (My : (2 ^ 52 <= rne (y / two_pow ey))%Z).
    { rewrite <- (rne_two_pow 52) by lia. apply rne_mono. apply round_exp_lower; [exact Hy|].
      assert (Z.le emin ex) by (unfold ex, round_exp; lia). lia. }
    apply Qle_trans with (inject_Z (2 ^ 53) * two_pow ex).
    + apply Qmult_le_compat_r; [rewrite <- Zle_Qle; exact Mx|apply Qlt_le_weak, two_pow_pos].
    + apply Qle_trans with (inject_Z (2 ^ 52) * two_pow ey).
      * rewrite <- !two_pow_Z by lia. rewrite <- !two_pow_plus. apply two_pow_le. lia.
      * apply Qmult_le_compat_r; [rewrite <- Zle_Qle; exact My|apply Qlt_le_weak, two_pow_pos].
Qed.

Lemma round_pos_value_nonneg (a : Q) : 0 < a -> 0 <= round_pos_value a.
Proof.
  intro Ha. unfold round_pos_value. apply Qmult_le_0_compat.
  - change 0 with (inject_Z 0). rewrite <- Zle_Qle. apply rne_nonneg. apply Qle_shift_div_l; [apply two_pow_pos|].
    rewrite Qmult_0_l. lra.
  - apply Qlt_le_weak, two_pow_pos.
Qed.

Lemma jle_trans (a b c : jsnum) : jle a b = true -> jle b c = true -> jle a c = true.
Proof.
  destruct a, b, c; try discriminate; try reflexivity.
  unfold jle. rewrite !Qle_bool_iff. apply Qle_trans.
Qed.

Lemma jle_jneg (a b : jsnum) : jle a b = true -> jle (jneg b) (jneg a) = true.
Proof.
  destruct a as [x| | |], b as [y| | |]; try discriminate; try reflexivity.
  unfold jle, jneg. rewrite !Qle_bool_iff, !Qred_correct. intro H. lra.
Qed.

Lemma round_pos_mono (x y : Q) : 0 < x -> x <= y -> jle (round_pos x) (round_pos y) = true.
Proof.
  intros Hx H. pose proof (round_pos_value_mono x y Hx H) as V. unfold round_pos.
  destruct (Qle_bool (two_pow 1024) (round_pos_value x)) eqn:A,
           (Qle_bool (two_pow 1024) (round_pos_value y)) eqn:B; try reflexivity.
  - apply Qle_bool_iff in A.
    assert (Qle_bool (two_pow 1024) (round_pos_value y) = true) by (apply Qle_bool_iff; lra).
    congruence.
  - unfold jle. apply Qle_bool_iff. rewrite !Qred_correct. exact V.
Qed.

Lemma round_pos_nonneg (a : Q) : 0 < a -> jle (JFin 0) (round_pos a) = true.
Proof.
  intro Ha. pose proof (round_pos_value_nonneg a Ha) as V. unfold round_pos.
  destruct (Qle_bool _ _); [reflexivity|]. unfold jle. apply Qle_bool_iff. rewrite Qred_correct. exact V.
Qed.

Lemma round_double_mono (x y : Q) : x <= y -> jle (round_double x) (round_double y) = true.
Proof.
  intro H. unfold round_double.
  assert (H' : Qred x <= Qred y) by (rewrite !Qred_correct; exact H).
  set (x' := Qred x) in *. set (y' := Qred y) in *. clearbody x' y'.
  destruct (Qeq_bool x' 0) eqn:X0.
  - apply Qeq_bool_iff in X0.
    destruct (Qeq_bool y' 0) eqn:Y0; [reflexivity|].
    destruct (Qltb 0 y') eqn:YP.
    + apply round_pos_nonneg. apply Qltb_iff. exact YP.
    + apply Qltb_false in YP. exfalso. apply Qeq_bool_neq in Y0. apply Y0. lra.
  - destruct (Qltb 0 x') eqn:XP.
    + apply Qltb_iff in XP.
      destruct (Qeq_bool y' 0) eqn:Y0; [apply Qeq_bool_iff in Y0; exfalso; lra|].
      destruct (Qltb 0 y') eqn:YP; [|apply Qltb_false in YP; exfalso; lra].
      apply round_pos_mono; assumption.
    + apply Qltb_false in XP.
      assert (Xn : x' < 0).
      { apply Qeq_bool_neq in X0. apply Qle_lt_or_eq in XP as [XP|XP]; [exact XP|]. exfalso. apply X0. exact XP. }
      assert (N : jle (jneg (round_pos (- x'))) (JFin 0) = true).
      { apply (jle_jneg (JFin 0)). apply round_pos_nonneg. lra. }
      destruct (Qeq_bool y' 0) eqn:Y0; [exact N|].
      destruct (Qltb 0 y') eqn:YP.
      * apply jle_trans with (1 := N). apply round_pos_nonneg. apply Qltb_iff. exact YP.
      * apply Qltb_false in YP.
        assert (Yn : y' < 0).
        { apply Qeq_bool_neq in Y0. apply Qle_lt_or_eq in YP as [YP|YP]; [exact YP|]. exfalso. apply Y0. exact YP. }
        apply jle_jneg. apply round_pos_mono; lra.
Qed.

Lemma round_double_wd (x y : Q) : x == y -> round_double x = round_double y.
Proof. intro H. unfold round_double. rewrite (Qred_complete x y H). reflexivity. Qed.

Lemma jle_between (a b : Q) (x : jsnum) :
  jle (JFin a) x = true -> jle x (JFin b) = true -> exists r, x = JFin r /\ a <= r /\ r <= b.
Proof.
  destruct x as [r| | |]; simpl; try discriminate.
  intros A B. apply Qle_bool_iff in A, B. exists r. auto.
Qed.

Lemma round_double_0 : round_double 0 = JFin 0.
Proof. vm_compute. reflexivity. Qed.

Lemma round_double_1 : round_double 1 = JFin 1.
Proof. vm_compute. reflexivity. Qed.

Lemma round_double_60000 : round_double 60000 = JFin 60000.
Proof. vm_compute. reflexivity. Qed.

Lemma round_double_m1 : round_double (-1) = JFin (-1).
Proof. vm_compute. reflexivity. Qed.

Lemma round_double_m2 : round_double (-2) = JFin (-2).
Proof. vm_compute. reflexivity. Qed.

(** A result in [[a, b]] whose ends are doubles rounds into [[a, b]]. *)
Lemma round_double_between (a b q : Q) :
  round_double a = JFin a -> round_double b = JFin b -> a <= q -> q <= b ->
  exists r, round_double q = JFin r /\ a <= r /\ r <= b.
Proof.
  intros Ea Eb H1 H2. apply jle_between.
  - rewrite <- Ea. apply round_double_mono. exact H1.
  - rewrite <- Eb. apply round_double_mono. exact H2.
Qed.

Lemma round_double_below (b q : Q) :
  round_double b = JFin b -> q <= b -> jle (round_double q) (JFin b) = true.
Proof. intros Eb H. rewrite <- Eb. apply round_double_mono. exact H. Qed.


Lemma slow_loop_S (k : nat) (r : jsnum) (f : list jsnum) :
  slow_loop (S k) r f =
  if jlt r jhalf then slow_loop k (jmul r j2) (f ++ [jhalf]) else Some (f, r).
Proof. reflexivity. Qed.

Lemma fast_loop_S (k : nat) (r : jsnum) (f : list jsnum) :
  fast_loop (S k) r f =
  if jgt r j2 then fast_loop k (jdiv r j2) (f ++ [j2]) else Some (f, r).
Proof. reflexivity. Qed.

Lemma jmul_fin2 (r : Q) : jmul (JFin r) j2 = JFin (Qred (r * 2)).
Proof. reflexivity. Qed.

Lemma jdiv_fin2 (r : Q) : jdiv (JFin r) j2 = JFin (Qred (r / 2)).
Proof. reflexivity. Qed.

Definition qprod (l : list Q) : Q := fold_right Qmult 1 l.

Lemma qprod_app1 (l : list Q) (x : Q) : qprod (l ++ [x]) == qprod l * x.
Proof.
  induction l as [|a l IH]; simpl.
  - ring.
  - rewrite IH. ring.
Qed.

Lemma fold_jmul_fin (l : list Q) (a : Q) :
  exists p, fold_left jmul (map JFin l) (JFin a) = JFin p /\ p == a * qprod l.
Proof.
  revert a. induction l as [|x l IH]; intro a; simpl.
  - exists a. split; [reflexivity | ring].
  - destruct (IH (Qred (a * x))) as [p [Hp Hq]].
    exists p. split; [exact Hp|]. rewrite Hq, Qred_correct. ring.
Qed.

Lemma chain_product_fin (l : list Q) :
  exists p, chain_product (map JFin l) = JFin p /\ p == qprod l.
Proof.
  destruct (fold_jmul_fin l 1) as [p [H1 H2]]. exists p.
  split; [exact H1|]. rewrite H2. ring.
Qed.

(** ** The decomposition loops: what they compute *)

Lemma slow_loop_inv (fuel : nat) :
  forall r acc fs rem,
    slow_loop fuel (JFin r) (map JFin acc) = Some (fs, rem) ->
    exists acc' r', fs = map JFin acc' /\ rem = JFin r' /\
      qprod acc' * r' == qprod acc * r /\ 1 # 2 <= r'.
Proof.
  induction fuel as [|k IH]; intros r acc fs rem H; [discriminate|].
  rewrite slow_loop_S in H. change (jlt (JFin r) jhalf) with (Qltb r (1 # 2)) in H.
  destruct (Qltb r (1 # 2)) eqn:E.
  - rewrite jmul_fin2 in H.
    replace (map JFin acc ++ [jhalf]) with (map JFin (acc ++ [1 # 2])) in H
      by (rewrite map_app; reflexivity).
    destruct (IH _ _ _ _ H) as [acc' [r' [H1 [H2 [H3 H4]]]]].
    exists acc', r'. repeat split; try assumption.
    rewrite H3, qprod_app1, Qred_correct. ring.
  - injection H as <- <-. exists acc, r. repeat split; try reflexivity.
    apply Qltb_false in E. exact E.
Qed.

Lemma fast_loop_inv (fuel : nat) :
  forall r acc fs rem,
    fast_loop fuel (JFin r) (map JFin acc) = Some (fs, rem) ->
    exists acc' r', fs = map JFin acc' /\ rem = JFin r' /\
      qprod acc' * r' == qprod acc * r /\ r' <= 2.
Proof.
  induction fuel as [|k IH]; intros r acc fs rem H; [discriminate|].
  rewrite fast_loop_S in H. change (jgt (JFin r) j2) with (Qltb 2 r) in H.
  destruct (Qltb 2 r) eqn:E.
  - rewrite jdiv_fin2 in H.
    replace (map JFin acc ++ [j2]) with (map JFin (acc ++ [2])) in H
      by (rewrite map_app; reflexivity).
    destruct (IH _ _ _ _ H) as [acc' [r' [H1 [H2 [H3 H4]]]]].
    exists acc', r'. repeat split; try assumption.
    rewrite H3, qprod_app1, Qred_correct. field.
  - injection H as <- <-. exists acc, r. repeat split; try reflexivity.
    apply Qltb_false in E. exact E.
Qed.

Lemma push_rest_product (acc : list Q) (r : Q) :
  exists p, chain_product (push_rest (map JFin acc, JFin r)) = JFin p /\
            p == qprod acc * r.
Proof.
  unfold push_rest, jneq, j1.
  destruct (Qeq_bool r 1) eqn:E; simpl.
  - destruct (chain_product_fin acc) as [p [H1 H2]]. exists p. split; [exact H1|].
    apply Qeq_bool_iff in E. rewrite H2, E. ring.
  - destruct (chain_product_fin (acc ++ [r])) as [p [H1 H2]]. exists p.
    rewrite map_app in H1. split; [exact H1|]. rewrite H2. apply qprod_app1.
Qed.

Lemma atempo_chain_product (fuel : nat) (q : Q) (st : list jsnum) :
  atempo_chain fuel (JFin q) = Some st ->
  exists p, chain_product st = JFin p /\ p == q.
Proof.
  unfold atempo_chain.
  destruct (jge (JFin q) jhalf && jle (JFin q) j2).
  - intro H. injection H as <-. exists (Qred (1 * q)). split; [reflexivity|].
    rewrite Qred_correct. ring.
  - destruct (jlt (JFin q) jhalf).
    + destruct (slow_loop fuel (JFin q) []) as [[fs rem]|] eqn:E; simpl;
        intro H; [|discriminate].
      injection H as <-.
      destruct (slow_loop_inv fuel q [] fs rem E) as [acc' [r' [-> [-> [H3 _]]]]].
      destruct (push_rest_product acc' r') as [p [H1 H2]].
      exists p. split; [exact H1|]. rewrite H2, H3. simpl. ring.
    + destruct (fast_loop fuel (JFin q) []) as [[fs rem]|] eqn:E; simpl;
        intro H; [|discriminate].
      injection H as <-.
      destruct (fast_loop_inv fuel q [] fs rem E) as [acc' [r' [-> [-> [H3 _]]]]].
      destruct (push_rest_product acc' r') as [p [H1 H2]].
      exists p. split; [exact H1|]. rewrite H2, H3. simpl. ring.
Qed.

(** ** The decomposition loops: when they stop *)

Definition pw (n : nat) : Q := inject_Z (2 ^ Z.of_nat n).

Lemma pw_S (n : nat) : pw (S n) == 2 * pw n.
Proof.
  unfold pw. rewrite Znat.Nat2Z.inj_succ, Z.pow_succ_r by lia.
  rewrite inject_Z_mult. reflexivity.
Qed.

Lemma pw_pos (n : nat) : 0 < pw n.
Proof.
  unfold pw. change 0 with (inject_Z 0). rewrite <- Zlt_Qlt.
  apply Z.pow_pos_nonneg; lia.
Qed.

Lemma slow_loop_stops (n : nat) :
  forall r acc, 1 # 2 <= r * pw n ->
  exists res, slow_loop (S n) (JFin r) acc = Some res.
Proof.
  induction n as [|n IH]; intros r acc H.
  - rewrite slow_loop_S. change (jlt (JFin r) jhalf) with (Qltb r (1 # 2)).
    replace (Qltb r (1 # 2)) with false; [eexists; reflexivity|].
    symmetry. apply Qltb_false. unfold pw in H. simpl in H.
    rewrite Qmult_1_r in H. exact H.
  - rewrite slow_loop_S. change (jlt (JFin r) jhalf) with (Qltb r (1 # 2)).
    destruct (Qltb r (1 # 2)); [|eexists; reflexivity].
    rewrite jmul_fin2. apply IH.
    rewrite Qred_correct. rewrite pw_S in H.
    setoid_replace (r * 2 * pw n) with (r * (2 * pw n)) by ring. exact H.
Qed.

Lemma fast_loop_stops (n : nat) :
  forall r acc, r <= 2 * pw n ->
  exists res, fast_loop (S n) (JFin r) acc = Some res.
Proof.
  induction n as [|n IH]; intros r acc H.
  - rewrite fast_loop_S. change (jgt (JFin r) j2) with (Qltb 2 r).
    replace (Qltb 2 r) with false; [eexists; reflexivity|].
    symmetry. apply Qltb_false. unfold pw in H. simpl in H.
    rewrite Qmult_1_r in H. exact H.
  - rewrite fast_loop_S. change (jgt (JFin r) j2) with (Qltb 2 r).
    destruct (Qltb 2 r); [|eexists; reflexivity].
    rewrite jdiv_fin2. apply IH.
    rewrite Qred_correct. rewrite pw_S in H.
    assert (Hp := pw_pos n).
    apply Qle_shift_div_r; [reflexivity|].
    setoid_replace (2 * pw n * 2) with (2 * (2 * pw n)) by ring. exact H.
Qed.

Lemma pw_large (z : Z) : (0 <= z -> z < 2 ^ z)%Z.
Proof. intro H. apply Z.pow_gt_lin_r; lia. Qed.

Lemma slow_bound (q : Q) : 0 < q -> 1 # 2 <= q * pw (Pos.to_nat (Qden q)).
Proof.
  destruct q as [a b]. intro H. unfold pw. rewrite Znat.positive_nat_Z.
  unfold Qlt in H. simpl in H.
  assert (Hb := pw_large (Z.pos b) ltac:(lia)).
  unfold Qle, Qmult, inject_Z. simpl. nia.
Qed.

Lemma fast_bound (q : Q) : 0 < q -> q <= 2 * pw (Z.to_nat (Qnum q)).
Proof.
  destruct q as [a b]. intro H. unfold pw.
  unfold Qlt in H. simpl in H. simpl Qnum.
  rewrite Znat.Z2Nat.id by lia.
  assert (Ha := pw_large a ltac:(lia)).
  unfold Qle, Qmult, inject_Z. cbn [Qnum Qden]. rewrite !Pos2Z.inj_mul. nia.
Qed.

Lemma atempo_chain_stops (q : Q) : 0 < q ->
  exists fuel st, atempo_chain fuel (JFin q) = Some st.
Proof.
  intro Hq. unfold atempo_chain.
  destruct (jge (JFin q) jhalf && jle (JFin q) j2); [exists O; eexists; reflexivity|].
  destruct (jlt (JFin q) jhalf).
  - destruct (slow_loop_stops (Pos.to_nat (Qden q)) q [] (slow_bound q Hq)) as [res E].
    exists (S (Pos.to_nat (Qden q))). rewrite E. eexists; reflexivity.
  - destruct (fast_loop_stops (Z.to_nat (Qnum q)) q [] (fast_bound q Hq)) as [res E].
    exists (S (Z.to_nat (Qnum q))). rewrite E. eexists; reflexivity.
Qed.

(** ** The decomposition loops: when they never stop *)







(** ** The decomposition loops under the array-length limit *)












(** ** Silent pads and the audio label of the transition graphs *)

Open Scope nat_scope.

Definition pad_count (i : nat) (g : list stmt) : nat :=
  List.length (filter (is_silent_pad_for i) g).

Lemma pad_count_app (i : nat) (g1 g2 : list stmt) :
  pad_count i (g1 ++ g2) = pad_count i g1 + pad_count i g2.
Proof. unfold pad_count. rewrite filter_app, length_app. reflexivity. Qed.

Lemma existsb_false {A} (f : A -> bool) (l : list A) :
  (forall x, In x l -> f x = false) -> existsb f l = false.
Proof.
  induction l as [|x l IH]; intro H; simpl; [reflexivity|].
  rewrite (H x (or_introl eq_refl)). apply IH. intros y Hy. apply H. right. exact Hy.
Qed.

Lemma pad_count_none (i : nat) (g : list stmt) :
  (forall s, In s g -> is_silent_pad s = false) -> pad_count i g = 0.
Proof.
  intro H. unfold pad_count.
  induction g as [|s g IH]; simpl; [reflexivity|].
  assert (Hs := H s (or_introl eq_refl)).
  replace (is_silent_pad_for i s) with false.
  - apply IH. intros x Hx. apply H. right. exact Hx.
  - unfold is_silent_pad in Hs. unfold is_silent_pad_for.
    destruct (st_filter s); try discriminate; reflexivity.
Qed.

Lemma silent_pads_seq_count (len : nat) :
  forall start i hasAudio,
  pad_count i (flat_map (fun j => if has_audio_at hasAudio j then []
                                  else [mkStmt [] FAnullsrc (LSilent j)]) (seq start len)) =
  if Nat.leb start i && Nat.ltb i (start + len)
  then (if has_audio_at hasAudio i then 0 else 1) else 0.
Proof.
  induction len as [|len IH]; intros start i hasAudio.
  - simpl. destruct (Nat.leb start i) eqn:E1; destruct (Nat.ltb i (start + 0)) eqn:E2;
      try reflexivity.
    apply Nat.leb_le in E1. apply Nat.ltb_lt in E2. lia.
  - cbn [seq flat_map]. rewrite pad_count_app, IH.
    destruct (Nat.eq_dec i start) as [->|Hne].
    + replace (Nat.leb (S start) start) with false by (symmetry; apply Nat.leb_gt; lia).
      replace (Nat.leb start start && Nat.ltb start (start + S len)) with true
        by (symmetry; apply andb_true_iff; split; [apply Nat.leb_le | apply Nat.ltb_lt]; lia).
      destruct (has_audio_at hasAudio start); unfold pad_count, is_silent_pad_for; simpl;
        rewrite ?Nat.eqb_refl; reflexivity.
    + replace (pad_count i (if has_audio_at hasAudio start then []
                            else [mkStmt [] FAnullsrc (LSilent start)])) with 0.
      2:{ destruct (has_audio_at hasAudio start); unfold pad_count, is_silent_pad_for; simpl; [reflexivity|].
          replace (Nat.eqb i start) with false by (symmetry; apply Nat.eqb_neq; exact Hne).
          reflexivity. }
      rewrite Nat.add_0_l. replace (S start + len) with (start + S len) by lia.
      destruct (Nat.leb (S start) i) eqn:E1; destruct (Nat.ltb i (S start + len)) eqn:E2;
      destruct (Nat.leb start i) eqn:E3; destruct (Nat.ltb i (start + S len)) eqn:E4;
      try reflexivity;
      repeat match goal with
             | H : Nat.leb _ _ = true |- _ => apply Nat.leb_le in H
             | H : Nat.leb _ _ = false |- _ => apply Nat.leb_gt in H
             | H : Nat.ltb _ _ = true |- _ => apply Nat.ltb_lt in H
             | H : Nat.ltb _ _ = false |- _ => apply Nat.ltb_ge in H
             end; lia.
Qed.

Lemma silent_pads_count (n i : nat) (hasAudio : list bool) :
  i < n -> pad_count i (silent_pads n hasAudio) = if has_audio_at hasAudio i then 0 else 1.
Proof.
  intro H. unfold silent_pads. rewrite silent_pads_seq_count.
  replace (Nat.leb 0 i && Nat.ltb i (0 + n)) with true; [reflexivity|].
  symmetry. apply andb_true_iff. split; [apply Nat.leb_le | apply Nat.ltb_lt]; lia.
Qed.

Lemma silent_pads_in (n : nat) (hasAudio : list bool) (s : stmt) :
  In s (silent_pads n hasAudio) ->
  exists i, i < n /\ has_audio_at hasAudio i = false /\ s = mkStmt [] FAnullsrc (LSilent i).
Proof.
  unfold silent_pads. rewrite in_flat_map. intros [i [Hi Hs]].
  apply in_seq in Hi. exists i.
  destruct (has_audio_at hasAudio i) eqn:E; [destruct Hs|].
  destruct Hs as [<-|[]]. split; [lia | split; reflexivity].
Qed.

Lemma all_audio_at (hasAudio : list bool) (i : nat) :
  allHasAudio hasAudio = true -> i < List.length hasAudio -> has_audio_at hasAudio i = true.
Proof.
  unfold allHasAudio, has_audio_at. intros H Hi.
  rewrite forallb_forall in H. apply H. apply nth_In. exact Hi.
Qed.

Lemma none_audio_at (hasAudio : list bool) (i : nat) :
  anyHasAudio hasAudio = false -> has_audio_at hasAudio i = false.
Proof.
  unfold anyHasAudio, has_audio_at. intro H.
  destruct (nth i hasAudio false) eqn:E; [|reflexivity].
  destruct (Nat.lt_ge_cases i (List.length hasAudio)) as [Hi|Hi].
  - assert (Hin := nth_In hasAudio false Hi). rewrite E in Hin.
    assert (existsb (fun h => h) hasAudio = true) by (apply existsb_exists; exists true; auto).
    congruence.
  - rewrite nth_overflow in E by exact Hi. discriminate.
Qed.

Lemma label_LA_concat_in (f : nat -> label) (l : list nat) :
  (forall i, label_eqb LA (f i) = false) -> existsb (label_eqb LA) (map f l) = false.
Proof.
  intro H. apply existsb_false. intros x Hx. apply in_map_iff in Hx.
  destruct Hx as [i [<- _]]. apply H.
Qed.

Lemma outputs_app (l : label) (g1 g2 : list stmt) :
  outputs l (g1 ++ g2) = outputs l g1 || outputs l g2.
Proof. unfold outputs. apply existsb_app. Qed.

Lemma mentions_app (l : label) (g1 g2 : list stmt) :
  mentions l (g1 ++ g2) = mentions l g1 || mentions l g2.
Proof. unfold mentions. apply existsb_app. Qed.

Lemma mentions_map (l : label) {A} (f : A -> stmt) (xs : list A) :
  (forall x, existsb (label_eqb l) (st_in (f x)) || label_eqb l (st_out (f x)) = false) ->
  mentions l (map f xs) = false.
Proof.
  intro H. unfold mentions. apply existsb_false. intros s Hs.
  apply in_map_iff in Hs. destruct Hs as [x [<- _]]. apply H.
Qed.

Lemma no_pad_map {A} (f : A -> stmt) (xs : list A) :
  (forall x, is_silent_pad (f x) = false) ->
  forall s, In s (map f xs) -> is_silent_pad s = false.
Proof.
  intros H s Hs. apply in_map_iff in Hs. destruct Hs as [x [<- _]]. apply H.
Qed.

Ltac fade_cases :=
  unfold fade_video_stmt, fade_audio_stmt;
  repeat match goal with
         | |- context [if ?b then _ else _] => destruct b
         end; reflexivity.

Lemma fade_video_not_pad (n : nat) (d : jsnum) (i : nat) :
  is_silent_pad (fade_video_stmt n d i) = false.
Proof. fade_cases. Qed.

Lemma fade_audio_not_pad (n : nat) (d : jsnum) (hasAudio : list bool) (i : nat) :
  is_silent_pad (fade_audio_stmt n d hasAudio i) = false.
Proof. fade_cases. Qed.

Lemma fade_video_no_LA (n : nat) (d : jsnum) (i : nat) :
  existsb (label_eqb LA) (st_in (fade_video_stmt n d i)) ||
  label_eqb LA (st_out (fade_video_stmt n d i)) = false.
Proof. fade_cases. Qed.

Lemma in_app3 {A} (x : A) (l1 l2 l3 : list A) :
  In x (l1 ++ l2 ++ l3) -> In x l1 \/ In x l2 \/ In x l3.
Proof. rewrite !in_app_iff. tauto. Qed.

Lemma concat_graph_pads (hasAudio : list bool) :
  silent_pad_property hasAudio (concat_graph (List.length hasAudio) hasAudio).
Proof.
  unfold silent_pad_property, concat_graph. split; intro Hany; rewrite Hany.
  - fold (pad_count 0 []).
    destruct (allHasAudio hasAudio) eqn:Hall; simpl negb; cbv iota.
    + split; [|split].
      * intros i Hi. fold (pad_count i ([] ++ [video_concat (List.length hasAudio)] ++
                                         [audio_concat (List.length hasAudio) hasAudio])).
        rewrite (all_audio_at hasAudio i Hall Hi). reflexivity.
      * intros s Hs Hp. simpl in Hs.
        destruct Hs as [<-|[<-|[]]]; discriminate.
      * reflexivity.
    + split; [|split].
      * intros i Hi. rewrite <- app_assoc.
        fold (pad_count i (silent_pads (List.length hasAudio) hasAudio ++
                [video_concat (List.length hasAudio)] ++
                [audio_concat (List.length hasAudio) hasAudio])).
        rewrite !pad_count_app, silent_pads_count by exact Hi.
        unfold pad_count. simpl. lia.
      * intros s Hs Hp. rewrite <- app_assoc in Hs. apply in_app3 in Hs.
        destruct Hs as [Hs|[[<-|[]]|[<-|[]]]]; [|discriminate|discriminate].
        destruct (silent_pads_in _ _ _ Hs) as [i [Hi [Ha ->]]]. exists i. auto.
      * rewrite outputs_app. simpl. apply orb_true_r.
  - split.
    + intros s Hs. simpl in Hs. destruct Hs as [<-|[]]. reflexivity.
    + simpl. unfold video_concat. simpl.
      rewrite label_LA_concat_in by reflexivity. reflexivity.
Qed.

Lemma fade_graph_pads (hasAudio : list bool) (d : jsnum) (g : list stmt) :
  buildFadeFilter (List.length hasAudio) d hasAudio = Built g ->
  silent_pad_property hasAudio g.
Proof.
  unfold buildFadeFilter.
  destruct (Nat.ltb (List.length hasAudio) 2); [discriminate|].
  intro H. injection H as <-.
  set (n := List.length hasAudio). set (idx := seq 0 n).
  unfold silent_pad_property. split; intro Hany; rewrite Hany.
  - assert (Hv : forall s, In s (map (fade_video_stmt n d) idx ++
                    [mkStmt (map LVFade idx) (FConcat n 1 0) LV] ++
                    map (fade_audio_stmt n d hasAudio) idx ++
                    [mkStmt (map LAFade idx) (FConcat n 0 1) LA]) ->
                    is_silent_pad s = false).
    { intros s Hs. rewrite !in_app_iff in Hs.
      destruct Hs as [Hs|[[<-|[]]|[Hs|[<-|[]]]]]; try reflexivity.
      - exact (no_pad_map _ _ (fade_video_not_pad n d) s Hs).
      - exact (no_pad_map _ _ (fade_audio_not_pad n d hasAudio) s Hs). }
    simpl andb.
    replace ((if true && negb (allHasAudio hasAudio) then silent_pads n hasAudio else []) ++
       map (fade_video_stmt n d) idx ++ [mkStmt (map LVFade idx) (FConcat n 1 0) LV])
      with ((if negb (allHasAudio hasAudio) then silent_pads n hasAudio else []) ++
       map (fade_video_stmt n d) idx ++ [mkStmt (map LVFade idx) (FConcat n 1 0) LV])
      by reflexivity.
    rewrite <- !app_assoc.
    split; [|split].
    + intros i Hi. fold (pad_count i (((if negb (allHasAudio hasAudio)
          then silent_pads n hasAudio else []) ++
          map (fade_video_stmt n d) idx ++
          [mkStmt (map LVFade idx) (FConcat n 1 0) LV] ++
          map (fade_audio_stmt n d hasAudio) idx ++
          [mkStmt (map LAFade idx) (FConcat n 0 1) LA]))).
      rewrite pad_count_app, (pad_count_none i _ Hv), Nat.add_0_r.
      destruct (allHasAudio hasAudio) eqn:Hall; simpl negb; cbv iota.
      * rewrite (all_audio_at hasAudio i Hall Hi). reflexivity.
      * apply silent_pads_count. exact Hi.
    + intros s Hs Hp. apply in_app_iff in Hs. destruct Hs as [Hs|Hs].
      * destruct (negb (allHasAudio hasAudio)); [|destruct Hs].
        destruct (silent_pads_in _ _ _ Hs) as [i [Hi [Ha ->]]]. exists i. auto.
      * rewrite (Hv s Hs) in Hp. discriminate.
    + rewrite !outputs_app. simpl. rewrite !orb_true_r. reflexivity.
  - simpl andb. cbv iota. rewrite app_nil_r, app_nil_l. split.
    + intros s Hs. apply in_app_iff in Hs. destruct Hs as [Hs|[<-|[]]]; [|reflexivity].
      exact (no_pad_map _ _ (fade_video_not_pad n d) s Hs).
    + rewrite mentions_app, mentions_map by apply fade_video_no_LA.
      simpl. rewrite label_LA_concat_in by reflexivity. reflexivity.
Qed.

(** ** Shape of the fade-to-black graph *)

Lemma fade_video_stmt_first (n : nat) (d : jsnum) :
  fade_video_stmt n d 0 = mkStmt [LInV 0] FCopy (LVFade 0).
Proof. unfold fade_video_stmt. destruct (Nat.eqb 0 0 && Nat.eqb n 2); reflexivity. Qed.

Lemma fade_video_stmt_later (n : nat) (d : jsnum) (i : nat) :
  i <> 0 -> fade_video_stmt n d i = mkStmt [LInV i] (FFade "in" j0 d) (LVFade i).
Proof.
  intro H. unfold fade_video_stmt. apply Nat.eqb_neq in H. rewrite H. simpl.
  destruct (Nat.eqb i (n - 1)); reflexivity.
Qed.

Lemma fade_audio_stmt_first (n : nat) (d : jsnum) (hasAudio : list bool) :
  fade_audio_stmt n d hasAudio 0 = mkStmt [audio_source hasAudio 0] FACopy (LAFade 0).
Proof. unfold fade_audio_stmt. destruct (Nat.eqb 0 0 && Nat.eqb n 2); reflexivity. Qed.

Lemma fade_audio_stmt_later (n : nat) (d : jsnum) (hasAudio : list bool) (i : nat) :
  i <> 0 ->
  fade_audio_stmt n d hasAudio i = mkStmt [audio_source hasAudio i] (FAFade "in" j0 d) (LAFade i).
Proof.
  intro H. unfold fade_audio_stmt. apply Nat.eqb_neq in H. rewrite H. simpl.
  destruct (Nat.eqb i (n - 1)); reflexivity.
Qed.

Definition fade_dir_in (s : stmt) : Prop :=
  match st_filter s with
  | FFade t _ _ | FAFade t _ _ => t = "in"
  | _ => True
  end.

Lemma fade_video_dir (n : nat) (d : jsnum) (i : nat) : fade_dir_in (fade_video_stmt n d i).
Proof. unfold fade_dir_in. fade_cases. Qed.

Lemma fade_audio_dir (n : nat) (d : jsnum) (hasAudio : list bool) (i : nat) :
  fade_dir_in (fade_audio_stmt n d hasAudio i).
Proof. unfold fade_dir_in. fade_cases. Qed.

Lemma silent_pads_dir (n : nat) (hasAudio : list bool) (s : stmt) :
  In s (silent_pads n hasAudio) -> fade_dir_in s.
Proof.
  intro Hs. destruct (silent_pads_in _ _ _ Hs) as [i [_ [_ ->]]]. exact I.
Qed.

Lemma in_map_seq {A} (f : nat -> A) (n i : nat) : i < n -> In (f i) (map f (seq 0 n)).
Proof. intro H. apply in_map. apply in_seq. lia. Qed.

(** ** The operation switches on unregistered names *)

Lemma str_mem_app (x : string) (l1 l2 : list string) :
  str_mem x (l1 ++ l2) = str_mem x l1 || str_mem x l2.
Proof. unfold str_mem. apply existsb_app. Qed.

Lemma unregistered_tests (op : string) :
  str_mem op registered_ops = false ->
  String.eqb op "get_video_info" = false /\ String.eqb op "speed_video" = false /\
  String.eqb op "audio_pan" = false /\ String.eqb op "add_audio_track" = false /\
  String.eqb op "burn_subtitles" = false /\ String.eqb op "crossfade_transition" = false /\
  str_mem op conversionOps = false /\ str_mem op plain_ops = false.
Proof.
  intro H. unfold registered_ops in H. rewrite !str_mem_app in H.
  apply orb_false_iff in H as [H1 H]. apply orb_false_iff in H as [H2 H3].
  unfold str_mem in H1. cbn [existsb] in H1.
  repeat rewrite orb_false_iff in H1. tauto.
Qed.

Lemma unknown_msg_nonempty (op : string) : String.eqb (unknown_msg op) "" = false.
Proof. reflexivity. Qed.

Lemma buffered_switch_unregistered fuel op a b :
  str_mem op registered_ops = false -> buffered_switch fuel op a b = DReject (unknown_msg op).
Proof.
  intro H. destruct (unregistered_tests op H) as (_&H2&H3&H4&_&H6&H7&H8).
  unfold buffered_switch. rewrite H2, H3, H4, H6, H7, H8. reflexivity.
Qed.

Lemma stream_switch_unregistered fuel op a :
  str_mem op registered_ops = false -> stream_switch fuel op a = DReject (unknown_msg op).
Proof.
  intro H. destruct (unregistered_tests op H) as (_&H2&H3&H4&_&H6&H7&H8).
  unfold conversionOps, str_mem in H7. cbn [existsb] in H7.
  repeat rewrite orb_false_iff in H7. destruct H7 as (H7a&H7b&H7c&_).
  unfold stream_switch. rewrite H2, H3, H7a, H7b, H7c, H6, H8. reflexivity.
Qed.

(** ** Temp files of the buffered handler *)

Lemma buffered_switch_no_end400 fuel op a b : buffered_switch fuel op a b <> DEnd400.
Proof.
  unfold buffered_switch, speed_video_case, audio_pan_case.
  destruct (atempo_chain fuel (a_speed a)), (pan_gains (a_pan a));
  repeat match goal with |- context [if ?c then _ else _] => destruct c end; discriminate.
Qed.

Lemma buffered_handler_cleans (env : Env) (fuel : nat) (req : BufReq) :
  snd (buffered_handler env fuel req st0) <> Hang ->
  files (fst (buffered_handler env fuel req st0)) = [].
Proof.
  destruct req as [f o a].
  destruct f; [|cbv; reflexivity].
  unfold buffered_handler; cbn [br_file br_operation br_args negb].
  destruct (op_given o) as [op|]; [|cbv; reflexivity].
  pose proof (buffered_switch_no_end400 fuel op a) as Hn.
  remember (buffered_switch fuel op a) as sw eqn:Hsw.
  remember (output_ext op a) as oe eqn:Hoe.
  remember (content_type op oe) as ct eqn:Hct.
  destruct (String.eqb op "add_audio_track"); destruct (String.eqb op "get_video_info");
  destruct (a_audioFile a);
  destruct env as [pr rok rerr rpart]; cbv;
  repeat match goal with |- context [pr ?p] => destruct (pr p) as [|[|]] end;
  repeat match goal with |- context [sw ?b] => destruct (sw b) eqn:?Esw end;
  destruct rok, rpart; cbv; try reflexivity; try congruence;
  exfalso; eapply Hn; eassumption.
Qed.

(** * Claims *)

(** [C1]: for the transition builders (buildCrossfadeFilter,
    buildWipeFilter, and buildFadeFilter as well) over a hasAudio
    vector: when some input has audio, the graph has exactly one silent
    [anullsrc] pad for each input without audio, none for inputs with
    audio, and an audio output [[a]]; when no input has audio, it has no
    silent pad and no [[a]] label at all.  In particular for
    [true, false, true] the only pad is [[silent1]] and [[a]] is output,
    and for [false, false] [[a]] is absent. *)
Theorem C1_transition_silent_pads :
  (forall (hasAudio : list bool) (d : jsnum) (t : string) (g : list stmt),
     (buildCrossfadeFilter (List.length hasAudio) d hasAudio t = Built g \/
      buildWipeFilter (List.length hasAudio) d t hasAudio = Built g \/
      buildFadeFilter (List.length hasAudio) d hasAudio = Built g) ->
     silent_pad_property hasAudio g) /\
  (forall (d : jsnum) (t : string),
     exists g1 g2,
       buildCrossfadeFilter 3 d [true; false; true] t = Built g1 /\
       buildWipeFilter 3 d t [true; false; true] = Built g1 /\
       filter is_silent_pad g1 = [mkStmt [] FAnullsrc (LSilent 1)] /\
       outputs LA g1 = true /\
       buildCrossfadeFilter 2 d [false; false] t = Built g2 /\
       buildWipeFilter 2 d t [false; false] = Built g2 /\
       mentions LA g2 = false).
Proof.
  split.
  - intros hasAudio d t g [H|[H|H]].
    + unfold buildCrossfadeFilter in H.
      destruct (Nat.ltb (List.length hasAudio) 2); [discriminate|].
      injection H as <-. apply concat_graph_pads.
    + unfold buildWipeFilter in H.
      destruct (Nat.ltb (List.length hasAudio) 2); [discriminate|].
      injection H as <-. apply concat_graph_pads.
    + exact (fade_graph_pads hasAudio d g H).
  - intros d t. eexists. eexists.
    split; [reflexivity|]. split; [reflexivity|]. split; [reflexivity|].
    split; [reflexivity|]. split; [reflexivity|]. split; reflexivity.
Qed.

Lemma C1_transition_silent_pads_witness :
  buildCrossfadeFilter 3 j1 [true; false; true] "fade" =
    Built (concat_graph 3 [true; false; true]) /\
  silent_pad_property [true; false; true] (concat_graph 3 [true; false; true]).
Proof.
  split; [reflexivity|].
  apply (proj1 C1_transition_silent_pads [true; false; true] j1 "fade").
  left. reflexivity.
Defined.

(** [C2]: for a finite positive speed factor [q] given to speed_video
    (in either handler's switch): the chain is built for some fuel; any
    chain built has a product of stage factors equal to [q]; for [q] in
    [0.5, 2] the chain is the single stage [q]; for [q = 4] it is two
    [2.0] stages; and the video filter is [setpts=PTS/q], mapping a
    timestamp [pts] to [pts / q]. *)
Theorem C2_speed_video_chain :
  (forall fuel a audioPresent,
     buffered_switch fuel "speed_video" a audioPresent = speed_video_case fuel (a_speed a) /\
     stream_switch fuel "speed_video" a = speed_video_case fuel (a_speed a)) /\
  (forall q : Q, (0 < q)%Q ->
     (exists fuel st,
        speed_video_case fuel (JFin q) = DCommand (CSpeed (Setpts_div (JFin q)) st)) /\
     (forall fuel v st,
        speed_video_case fuel (JFin q) = DCommand (CSpeed v st) ->
        v = Setpts_div (JFin q) /\
        (exists p, chain_product st = JFin p /\ (p == q)%Q) /\
        (forall pts : Q, vfilter_apply v (JFin pts) = JFin (Qred (pts / q)))) /\
     ((1 # 2 <= q <= 2)%Q ->
        forall fuel, speed_video_case fuel (JFin q) = DCommand (CSpeed (Setpts_div (JFin q)) [JFin q]))) /\
  (forall fuel, 2 <= fuel ->
     speed_video_case fuel (JFin 4) = DCommand (CSpeed (Setpts_div (JFin 4)) [j2; j2])).
Proof.
  split; [intros; split; reflexivity|]. split.
  - intros q Hq. split; [|split].
    + destruct (atempo_chain_stops q Hq) as [fuel [st H]].
      exists fuel, st. unfold speed_video_case. rewrite H. reflexivity.
    + intros fuel v st H. unfold speed_video_case in H.
      destruct (atempo_chain fuel (JFin q)) as [st'|] eqn:E; [|discriminate].
      injection H as <- <-. split; [reflexivity|]. split.
      * exact (atempo_chain_product fuel q st' E).
      * intro pts. simpl.
        destruct (Qeq_bool q 0) eqn:Z; [|reflexivity].
        apply Qeq_bool_iff in Z. rewrite Z in Hq. discriminate.
    + intros [H1 H2] fuel. unfold speed_video_case, atempo_chain.
      replace (jge (JFin q) jhalf && jle (JFin q) j2) with true; [reflexivity|].
      symmetry. apply andb_true_iff. split; apply Qle_bool_iff; assumption.
  - intros fuel Hf. destruct fuel as [|[|f]]; [lia|lia|]. reflexivity.
Qed.

Lemma C2_speed_video_chain_witness :
  speed_video_case 10 (JFin 3) = DCommand (CSpeed (Setpts_div (JFin 3)) [j2; JFin (3 # 2)]) /\
  (exists p, chain_product [j2; JFin (3 # 2)] = JFin p /\ (p == 3)%Q) /\
  speed_video_case 0 (JFin (3 # 4)) = DCommand (CSpeed (Setpts_div (JFin (3 # 4))) [JFin (3 # 4)]) /\
  speed_video_case 5 (JFin 4) = DCommand (CSpeed (Setpts_div (JFin 4)) [j2; j2]).
Proof.
  split; [reflexivity|]. split.
  - apply (proj1 (proj2 (proj1 (proj2 C2_speed_video_chain) 3%Q eq_refl)) 10
             (Setpts_div (JFin 3)) [j2; JFin (3 # 2)] eq_refl).
  - split.
    + apply (proj2 (proj2 (proj1 (proj2 C2_speed_video_chain) (3 # 4) eq_refl))).
      split; vm_compute; discriminate.
    + apply (proj2 (proj2 C2_speed_video_chain)). lia.
Defined.

(** [C3]: the cleanup claim fails on the multipart add_audio_track
    path: whenever the audio argument decodes but the mode is neither
    replace nor mix, or the volume is not a number in [0, 2], the handler
    answers 400 after writing the input and audio temp files and returns
    without deleting them; the two files are left on disk.  The buffered
    handler of the first version, by contrast, leaves no temp file on
    every run that finishes. *)
Theorem C3_multipart_add_audio_track_leaks :
  (forall (env : Env) (a : Args) (ext : string),
     a_audioFile a = inr ext ->
     (mode_ok (or_default (a_mode a) "replace") = false \/
      volume_bad (volume_of a) = true) ->
     let (s, o) := multipart_handler env (mkMultiReq None true (Some "add_audio_track") a) st0 in
     files s = [mkPath "audio" 1; mkPath "input" 0] /\ o = Returned /\
     created_files (log s) = [mkPath "input" 0; mkPath "audio" 1] /\
     exists msg, responses (log s) = [RJson 400 msg]) /\
  (forall (env : Env) (fuel : nat) (req : BufReq),
     snd (buffered_handler env fuel req st0) <> Hang ->
     files (fst (buffered_handler env fuel req st0)) = []).
Proof.
  split; [|exact buffered_handler_cleans].
  intros env a ext Hext Hbad.
  unfold multipart_handler, multipart_add_audio_track. cbn [mq_multerError mq_file mq_operation mq_args negb].
  rewrite Hext.
  destruct (mode_ok (or_default (a_mode a) "replace")) eqn:Em; cbn [negb];
  [destruct Hbad as [Hbad|Hbad]; [discriminate|rewrite Hbad]|].
  - destruct env as [pr rok rerr rpart]; cbv;
    destruct (pr (mkPath "input" 0)) as [|[|]];
    repeat split; eexists; reflexivity.
  - destruct env as [pr rok rerr rpart]; cbv;
    destruct (pr (mkPath "input" 0)) as [|[|]];
    repeat split; eexists; reflexivity.
Qed.

Lemma C3_multipart_add_audio_track_leaks_witness :
  let a := mkArgs j1 j0 None None (Some "overlay") None (inr "mp3") false false None None in
  let env := mkEnv (fun _ => inr (Some ["video"; "audio"])) true "" false in
  a_audioFile a = inr "mp3" /\ mode_ok (or_default (a_mode a) "replace") = false /\
  (let (s, o) := multipart_handler env (mkMultiReq None true (Some "add_audio_track") a) st0 in
   files s = [mkPath "audio" 1; mkPath "input" 0] /\ o = Returned /\
   created_files (log s) = [mkPath "input" 0; mkPath "audio" 1] /\
   exists msg, responses (log s) = [RJson 400 msg]).
Proof.
  intros a env. split; [reflexivity|]. split; [reflexivity|].
  apply (proj1 C3_multipart_add_audio_track_leaks env a "mp3" eq_refl).
  left. reflexivity.
Defined.

(** [C4]: for an operation name that neither switch registers
    (teleport_video is one), the streaming handler answers 400
    [Unknown operation: op] without touching the disk, while the buffered
    handler first writes the upload to a temp input file, then answers
    500 with the same message after deleting that file. *)
Theorem C4_unknown_operation :
  (forall env fuel op a,
     String.eqb op "" = false -> str_mem op registered_ops = false ->
     buffered_handler env fuel (mkBufReq true (Some op) a) st0 =
       (mkSt [] 2 [("outputPath", [mkPath "output" 1]); ("inputPath", [mkPath "input" 0])]
          [EWrite (mkPath "input" 0); EUnlink (mkPath "input" 0);
           ERespond (RJson 500 (unknown_msg op))], Ok tt) /\
     stream_handler env fuel (mkStreamReq (Some op) (Some a)) st0 =
       (mkSt [] 0 [] [ERespond (RJson 400 (unknown_msg op))], Ok tt)) /\
  str_mem "teleport_video" registered_ops = false.
Proof.
  split; [|reflexivity].
  intros env fuel op a He H.
  destruct (unregistered_tests op H) as (H1&_&_&H4&_&_&_&_).
  split.
  - unfold buffered_handler. cbn [br_file br_operation br_args negb].
    unfold op_given. rewrite He, H4, H1.
    cbv -[buffered_switch output_ext content_type unknown_msg].
    rewrite buffered_switch_unregistered by exact H.
    cbv -[unknown_msg]. rewrite unknown_msg_nonempty. reflexivity.
  - unfold stream_handler. cbn [sq_operation sq_args]. unfold op_given. rewrite He, H1.
    rewrite stream_switch_unregistered by exact H. reflexivity.
Qed.

Lemma C4_unknown_operation_witness :
  let a := mkArgs j1 j0 None None None None (inr "mp3") false false None None in
  let env := mkEnv (fun _ => inr (Some ["video"; "audio"])) true "" false in
  String.eqb "teleport_video" "" = false /\ str_mem "teleport_video" registered_ops = false /\
  buffered_handler env 10 (mkBufReq true (Some "teleport_video") a) st0 =
    (mkSt [] 2 [("outputPath", [mkPath "output" 1]); ("inputPath", [mkPath "input" 0])]
       [EWrite (mkPath "input" 0); EUnlink (mkPath "input" 0);
        ERespond (RJson 500 (unknown_msg "teleport_video"))], Ok tt).
Proof.
  intros a env. split; [reflexivity|]. split; [reflexivity|].
  apply (proj1 C4_unknown_operation env 10 "teleport_video" a); reflexivity.
Defined.

(** [C5]: with fewer than 2 inputs, buildCrossfadeFilter, buildWipeFilter
    and buildFadeFilter return a build error, so no transition type
    yields a graph; and /api/transition-videos with fewer than 2
    uploaded files answers 400 and returns before writing any file or
    invoking the engine. *)
Theorem C5_transition_needs_two_inputs :
  (forall (n : nat) (d : jsnum) (hasAudio : list bool) (t : string), n < 2 ->
     buildCrossfadeFilter n d hasAudio t = BuildError "At least 2 videos required for crossfade" /\
     buildWipeFilter n d t hasAudio = BuildError "At least 2 videos required for wipe transition" /\
     buildFadeFilter n d hasAudio = BuildError "At least 2 videos required for fade transition" /\
     (forall g, transition_build t n d hasAudio <> Some (Built g))) /\
  (forall (env : Env) (req : TransReq), tq_nfiles req < 2 ->
     transition_handler env req st0 =
       (mkSt [] 0 [] [ERespond (RJson 400 "At least two video files are required for transitions")],
        Returned) /\
     engine_invoked (log (fst (transition_handler env req st0))) = false).
Proof.
  split.
  - intros n d hA t Hn. apply Nat.ltb_lt in Hn.
    unfold buildCrossfadeFilter, buildWipeFilter, buildFadeFilter.
    rewrite Hn. split; [reflexivity|]. split; [reflexivity|]. split; [reflexivity|].
    intros g. unfold transition_build, buildCrossfadeFilter, buildWipeFilter, buildFadeFilter.
    rewrite Hn.
    repeat match goal with |- context [if ?c then _ else _] => destruct c end; discriminate.
  - intros env req Hn. apply Nat.ltb_lt in Hn.
    assert (E : transition_handler env req st0 =
       (mkSt [] 0 [] [ERespond (RJson 400 "At least two video files are required for transitions")],
        Returned)).
    { unfold transition_handler, transition_handler_fs. rewrite Hn. reflexivity. }
    rewrite E. split; reflexivity.
Qed.

Lemma C5_transition_needs_two_inputs_witness :
  let env := mkEnv (fun _ => inr (Some ["video"; "audio"])) true "" false in
  (1 < 2 /\ buildFadeFilter 1 j1 [true] = BuildError "At least 2 videos required for fade transition") /\
  transition_handler env (mkTransReq 1 (Some "crossfade") None) st0 =
    (mkSt [] 0 [] [ERespond (RJson 400 "At least two video files are required for transitions")],
     Returned).
Proof.
  intro env. split.
  - split; [lia|]. apply (proj1 C5_transition_needs_two_inputs 1 j1 [true] "fade"). lia.
  - apply (proj2 C5_transition_needs_two_inputs env (mkTransReq 1 (Some "crossfade") None)).
    cbn. lia.
Defined.

(** [C6]: checkHasAudioStream never fails: it reports [false] when the
    ffprobe run fails (and only logs the probe run); in contrast
    get_video_info, in both the buffered and the streaming handler,
    answers 500 with the probe's error message when ffprobe fails on the
    uploaded file. *)
Theorem C6_probe_failure :
  (forall (env : Env) (p : path) (s : St),
     exists b, checkHasAudioStream env p s =
       (mkSt (files s) (next_id s) (locals s) (log s ++ [EProbe p]), Ok b)) /\
  (forall (env : Env) (p : path) (s : St) (e : string),
     env_probe env p = inl e ->
     checkHasAudioStream env p s =
       (mkSt (files s) (next_id s) (locals s) (log s ++ [EProbe p]), Ok false)) /\
  (forall (env : Env) (fuel : nat) (a : Args) (e : string),
     env_probe env (mkPath "input" 0) = inl e ->
     responses (log (fst (buffered_handler env fuel (mkBufReq true (Some "get_video_info") a) st0)))
       = [RJson 500 (msg_or e "Failed to process video")] /\
     responses (log (fst (stream_handler env fuel (mkStreamReq (Some "get_video_info") (Some a)) st0)))
       = [RJson 500 (msg_or e "Failed to get video info")]).
Proof.
  split; [|split].
  - intros env p s. unfold checkHasAudioStream, ffprobe, bind, log_event, ret.
    eexists. reflexivity.
  - intros env p s e H. unfold checkHasAudioStream, ffprobe, bind, log_event, ret.
    rewrite H. reflexivity.
  - intros env fuel a e H. split.
    + unfold buffered_handler. cbv -[env_probe msg_or]. rewrite H. reflexivity.
    + unfold stream_handler. cbv -[env_probe msg_or]. rewrite H. reflexivity.
Qed.

Lemma C6_probe_failure_witness :
  let env := mkEnv (fun _ => inl "ffprobe exited with code 1") true "" false in
  checkHasAudioStream env (mkPath "input" 0) st0 =
    (mkSt [] 0 [] [EProbe (mkPath "input" 0)], Ok false) /\
  responses (log (fst (stream_handler env 0 (mkStreamReq (Some "get_video_info")
    (Some (mkArgs j1 j0 None None None None (inr "mp3") false false None None))) st0)))
    = [RJson 500 "ffprobe exited with code 1"].
Proof.
  intro env. split.
  - apply (proj1 (proj2 C6_probe_failure) env (mkPath "input" 0) st0 "ffprobe exited with code 1").
    reflexivity.
  - apply (proj2 (proj2 (proj2 C6_probe_failure) env 0
      (mkArgs j1 j0 None None None None (inr "mp3") false false None None)
      "ffprobe exited with code 1" eq_refl)).
Defined.

(** ** Gains of audio_pan on finite values *)

Lemma pan_gains_neg (p : Q) : (p < 0)%Q ->
  pan_gains (JFin p) = (JFin 1, round_double (1 + p)).
Proof.
  intro H. unfold pan_gains. change (jlt (JFin p) j0) with (Qltb p 0).
  replace (Qltb p 0) with true by (symmetry; apply Qltb_iff; exact H). reflexivity.
Qed.

Lemma pan_gains_pos (p : Q) : (0 < p)%Q ->
  pan_gains (JFin p) = (round_double (1 - p), JFin 1).
Proof.
  intro H. unfold pan_gains. change (jlt (JFin p) j0) with (Qltb p 0).
  change (jgt (JFin p) j0) with (Qltb 0 p).
  replace (Qltb p 0) with false by (symmetry; apply Qltb_false; lra).
  replace (Qltb 0 p) with true by (symmetry; apply Qltb_iff; exact H). reflexivity.
Qed.

(** [C7] (counterexample): pan is not range-checked, and pan = -3 maps
    to a right gain of -2, a channel amplified twice (and inverted), not
    attenuated; audio_pan builds that filter in both switches.  And a
    tiny negative pan, -2^-60, attenuates nothing: [1.0 + panValue]
    rounds to 1. *)
Lemma C7_pan_counterexample :
  pan_gains (JFin (-3)) = (JFin 1, JFin (-2)) /\
  audio_pan_case (JFin (-3)) = DCommand (CPan (JFin 1) (JFin (-2))) /\
  (1 < Qabs (-2))%Q /\
  pan_gains (JFin (- (1 # 1152921504606846976))) = (JFin 1, JFin 1).
Proof.
  split; [vm_compute; reflexivity|]. split; [vm_compute; reflexivity|].
  split; [reflexivity|]. vm_compute. reflexivity.
Qed.

(** [C7] (amended): pan = -1 gives left gain 1 and right gain 0, pan = 1
    gives left 0 and right 1, pan = 0 gives 1 and 1.  A negative pan [p]
    keeps the left gain at 1 and sets the right gain to the double
    nearest [1 + p]; a positive one keeps the right gain at 1 and sets
    the left gain to the double nearest [1 - p].  For p in [-1, 1] the
    changed gain lies in [0, 1] (it is exactly 1 for p = -2^-60 or
    2^-60: no attenuation), for p in [-2, 2] its magnitude is at most 1,
    and for p < -2 or p > 2 it is at most -1 (at most -2 once p <= -3 or
    p >= 3): full or higher level with inverted polarity. *)
Theorem C7_pan_gains :
  pan_gains (JFin (-1)) = (JFin 1, JFin 0) /\
  pan_gains (JFin 1) = (JFin 0, JFin 1) /\
  pan_gains j0 = (JFin 1, JFin 1) /\
  (forall p : Q, (p < 0)%Q ->
     pan_gains (JFin p) = (JFin 1, round_double (1 + p)) /\
     ((-1 <= p)%Q -> exists r, round_double (1 + p) = JFin r /\ (0 <= r <= 1)%Q) /\
     ((-2 <= p)%Q -> exists r, round_double (1 + p) = JFin r /\ (Qabs r <= 1)%Q) /\
     ((p < -2)%Q -> jle (round_double (1 + p)) (JFin (-1)) = true) /\
     ((p <= -3)%Q -> jle (round_double (1 + p)) (JFin (-2)) = true)) /\
  (forall p : Q, (0 < p)%Q ->
     pan_gains (JFin p) = (round_double (1 - p), JFin 1) /\
     ((p <= 1)%Q -> exists l, round_double (1 - p) = JFin l /\ (0 <= l <= 1)%Q) /\
     ((p <= 2)%Q -> exists l, round_double (1 - p) = JFin l /\ (Qabs l <= 1)%Q) /\
     ((2 < p)%Q -> jle (round_double (1 - p)) (JFin (-1)) = true) /\
     ((3 <= p)%Q -> jle (round_double (1 - p)) (JFin (-2)) = true)) /\
  pan_gains (JFin (- (1 # 1152921504606846976))) = (JFin 1, JFin 1) /\
  pan_gains (JFin (1 # 1152921504606846976)) = (JFin 1, JFin 1).
Proof.
  split; [vm_compute; reflexivity|]. split; [vm_compute; reflexivity|].
  split; [reflexivity|]. split; [|split; [|split; vm_compute; reflexivity]].
  - intros p Hp. split; [exact (pan_gains_neg p Hp)|]. split; [|split; [|split]].
    + intro H. apply round_double_between; [exact round_double_0 | exact round_double_1 | lra | lra].
    + intro H. destruct (round_double_between (-1) 1 (1 + p) round_double_m1 round_double_1)
        as [r [E [R1 R2]]]; [lra | lra |].
      exists r. split; [exact E|]. apply Qabs_Qle_condition. lra.
    + intro H. apply round_double_below; [exact round_double_m1 | lra].
    + intro H. apply round_double_below; [exact round_double_m2 | lra].
  - intros p Hp. split; [exact (pan_gains_pos p Hp)|]. split; [|split; [|split]].
    + intro H. apply round_double_between; [exact round_double_0 | exact round_double_1 | lra | lra].
    + intro H. destruct (round_double_between (-1) 1 (1 - p) round_double_m1 round_double_1)
        as [l [E [L1 L2]]]; [lra | lra |].
      exists l. split; [exact E|]. apply Qabs_Qle_condition. lra.
    + intro H. apply round_double_below; [exact round_double_m1 | lra].
    + intro H. apply round_double_below; [exact round_double_m2 | lra].
Qed.

Lemma C7_pan_gains_witness :
  (exists r, pan_gains (JFin (-1 # 2)) = (JFin 1, JFin r) /\ (0 <= r <= 1)%Q) /\
  (exists l, pan_gains (JFin (1 # 4)) = (JFin l, JFin 1) /\ (0 <= l <= 1)%Q).
Proof.
  split.
  - destruct (proj1 (proj2 (proj1 (proj2 (proj2 (proj2 C7_pan_gains))) (-1 # 2)%Q eq_refl))
      ltac:(vm_compute; discriminate)) as [r [E H]].
    exists r. split; [|exact H].
    rewrite (proj1 (proj1 (proj2 (proj2 (proj2 C7_pan_gains))) (-1 # 2)%Q eq_refl)), E.
    reflexivity.
  - destruct (proj1 (proj2 (proj1 (proj2 (proj2 (proj2 (proj2 C7_pan_gains)))) (1 # 4)%Q eq_refl))
      ltac:(vm_compute; discriminate)) as [l [E H]].
    exists l. split; [|exact H].
    rewrite (proj1 (proj1 (proj2 (proj2 (proj2 (proj2 C7_pan_gains)))) (1 # 4)%Q eq_refl)), E.
    reflexivity.
Defined.

(** ** audio_pan in the handlers *)

Lemma audio_pan_case_command (p : jsnum) :
  audio_pan_case p = DCommand (CPan (fst (pan_gains p)) (snd (pan_gains p))).
Proof. unfold audio_pan_case. destruct (pan_gains p). reflexivity. Qed.

Lemma stream_audio_pan_runs (env : Env) (fuel : nat) (a : Args) :
  engine_invoked (log (fst (stream_handler env fuel (mkStreamReq (Some "audio_pan") (Some a)) st0)))
    = true.
Proof.
  unfold stream_handler. cbv -[stream_switch env_run_ok env_run_partial output_ext content_type pan_gains].
  change (stream_switch fuel "audio_pan" a) with (audio_pan_case (a_pan a)).
  rewrite audio_pan_case_command.
  cbv -[env_run_ok env_run_partial output_ext content_type pan_gains].
  destruct (env_run_ok env), (env_run_partial env); reflexivity.
Qed.

Lemma buffered_audio_pan_runs (env : Env) (fuel : nat) (a : Args) :
  engine_invoked (log (fst (buffered_handler env fuel (mkBufReq true (Some "audio_pan") a) st0)))
    = true.
Proof.
  unfold buffered_handler. cbv -[buffered_switch env_run_ok env_run_partial pan_gains].
  change (buffered_switch fuel "audio_pan" a false) with (audio_pan_case (a_pan a)).
  rewrite audio_pan_case_command.
  cbv -[env_run_ok env_run_partial pan_gains].
  destruct (env_run_ok env), (env_run_partial env); reflexivity.
Qed.

(** [C8] (counterexample): pan = 5 is not rejected: both switches build
    the pan filter with left gain -4, and both handlers run the engine. *)
Lemma C8_pan_counterexample :
  let a := mkArgs j1 (JFin 5) None None None None (inr "mp3") false false None None in
  let env := mkEnv (fun _ => inr (Some ["video"; "audio"])) true "" false in
  buffered_switch 0 "audio_pan" a false = DCommand (CPan (JFin (-4)) (JFin 1)) /\
  stream_switch 0 "audio_pan" a = DCommand (CPan (JFin (-4)) (JFin 1)) /\
  engine_invoked (log (fst (stream_handler env 0 (mkStreamReq (Some "audio_pan") (Some a)) st0)))
    = true /\
  engine_invoked (log (fst (buffered_handler env 0 (mkBufReq true (Some "audio_pan") a) st0)))
    = true.
Proof. repeat split; reflexivity. Qed.

(** [C8] (amended): audio_pan validates nothing: for every pan value
    both switches build the pan filter from pan_gains, and both
    handlers invoke the engine. *)
Theorem C8_audio_pan_no_validation :
  forall (env : Env) (fuel : nat) (a : Args) (audioPresent : bool),
    buffered_switch fuel "audio_pan" a audioPresent =
      DCommand (CPan (fst (pan_gains (a_pan a))) (snd (pan_gains (a_pan a)))) /\
    stream_switch fuel "audio_pan" a =
      DCommand (CPan (fst (pan_gains (a_pan a))) (snd (pan_gains (a_pan a)))) /\
    engine_invoked (log (fst (stream_handler env fuel (mkStreamReq (Some "audio_pan") (Some a)) st0)))
      = true /\
    engine_invoked (log (fst (buffered_handler env fuel (mkBufReq true (Some "audio_pan") a) st0)))
      = true.
Proof.
  intros env fuel a b.
  split; [apply audio_pan_case_command|]. split; [apply audio_pan_case_command|].
  split; [apply stream_audio_pan_runs | apply buffered_audio_pan_runs].
Qed.

(** [C9] (counterexample): with three clips the middle clip 1 also gets a
    fade-in, so fades are not confined to the outer edges; with two clips
    the first clip is only copied and no statement fades out, so the
    two-clip case is not a symmetric fade. *)
Lemma C9_fade_counterexample :
  (exists g, buildFadeFilter 3 j1 [true; true; true] = Built g /\
     In (mkStmt [LInV 1] (FFade "in" j0 j1) (LVFade 1)) g) /\
  (exists g, buildFadeFilter 2 j1 [true; true] = Built g /\
     In (mkStmt [LInV 0] FCopy (LVFade 0)) g /\
     forall s, In s g -> fade_dir_in s).
Proof.
  split.
  - eexists. split; [reflexivity|]. simpl. repeat (first [left; reflexivity | right]).
  - eexists. split; [reflexivity|]. split; [simpl; repeat (first [left; reflexivity | right])|].
    intros s Hs. simpl in Hs.
    repeat (destruct Hs as [<-|Hs]; [vm_compute; first [exact I | reflexivity]|]). destruct Hs.
Qed.

(** [C9] (amended): for n >= 2 clips the fade graph passes clip 0 through
    unchanged ([copy], and [acopy] for its audio) and gives every later
    clip, middle ones included, a fade-in at time 0 of the given duration
    on video (and on audio when some input has audio), then concatenates
    the n results into [[v]] (and [[a]]); no statement fades out, and the
    two-clip case follows the same pattern. *)
Theorem C9_fade_graph :
  forall (n : nat) (d : jsnum) (hasAudio : list bool) (g : list stmt),
    buildFadeFilter n d hasAudio = Built g ->
    2 <= n /\
    In (mkStmt [LInV 0] FCopy (LVFade 0)) g /\
    (forall i, 1 <= i < n -> In (mkStmt [LInV i] (FFade "in" j0 d) (LVFade i)) g) /\
    In (mkStmt (map LVFade (seq 0 n)) (FConcat n 1 0) LV) g /\
    (anyHasAudio hasAudio = true ->
       In (mkStmt [audio_source hasAudio 0] FACopy (LAFade 0)) g /\
       (forall i, 1 <= i < n ->
          In (mkStmt [audio_source hasAudio i] (FAFade "in" j0 d) (LAFade i)) g) /\
       In (mkStmt (map LAFade (seq 0 n)) (FConcat n 0 1) LA) g) /\
    (forall s, In s g -> fade_dir_in s).
Proof.
  intros n d hA g H. unfold buildFadeFilter in H.
  destruct (Nat.ltb n 2) eqn:En; [discriminate|].
  apply Nat.ltb_ge in En. injection H as <-.
  split; [exact En|].
  split; [|split; [|split; [|split]]].
  - apply in_or_app. left. apply in_or_app. right. apply in_or_app. left.
    rewrite <- (fade_video_stmt_first n d). apply in_map_seq. lia.
  - intros i Hi. apply in_or_app. left. apply in_or_app. right. apply in_or_app. left.
    rewrite <- (fade_video_stmt_later n d i) by lia. apply in_map_seq. lia.
  - apply in_or_app. left. apply in_or_app. right. apply in_or_app. right. left. reflexivity.
  - intro Ha. rewrite Ha. split; [|split].
    + apply in_or_app. right. apply in_or_app. left.
      rewrite <- (fade_audio_stmt_first n d hA). apply in_map_seq. lia.
    + intros i Hi. apply in_or_app. right. apply in_or_app. left.
      rewrite <- (fade_audio_stmt_later n d hA i) by lia. apply in_map_seq. lia.
    + apply in_or_app. right. apply in_or_app. right. left. reflexivity.
  - intros s Hs. apply in_app_or in Hs as [Hs|Hs].
    + apply in_app_or in Hs as [Hs|Hs].
      * destruct (anyHasAudio hA && negb (allHasAudio hA));
          [exact (silent_pads_dir _ _ _ Hs)|destruct Hs].
      * apply in_app_or in Hs as [Hs|Hs].
        -- apply in_map_iff in Hs as [i [<- _]]. apply fade_video_dir.
        -- destruct Hs as [<-|[]]. exact I.
    + destruct (anyHasAudio hA); [|destruct Hs].
      apply in_app_or in Hs as [Hs|Hs].
      * apply in_map_iff in Hs as [i [<- _]]. apply fade_audio_dir.
      * destruct Hs as [<-|[]]. exact I.
Qed.

Lemma C9_fade_graph_witness :
  buildFadeFilter 3 j1 [true; false; true] =
    Built (silent_pads 3 [true; false; true] ++
           map (fade_video_stmt 3 j1) (seq 0 3) ++
           [mkStmt (map LVFade (seq 0 3)) (FConcat 3 1 0) LV] ++
           map (fade_audio_stmt 3 j1 [true; false; true]) (seq 0 3) ++
           [mkStmt (map LAFade (seq 0 3)) (FConcat 3 0 1) LA]) /\
  In (mkStmt [LInV 2] (FFade "in" j0 j1) (LVFade 2))
    (silent_pads 3 [true; false; true] ++
     map (fade_video_stmt 3 j1) (seq 0 3) ++
     [mkStmt (map LVFade (seq 0 3)) (FConcat 3 1 0) LV] ++
     map (fade_audio_stmt 3 j1 [true; false; true]) (seq 0 3) ++
     [mkStmt (map LAFade (seq 0 3)) (FConcat 3 0 1) LA]).
Proof.
  split; [reflexivity|].
  apply (proj1 (proj2 (proj2 (C9_fade_graph 3 j1 [true; false; true] _ eq_refl)))). lia.
Defined.




Lemma str_forallb_filter (f : Ascii.ascii -> bool) (s : string) :
  str_forallb f (str_filter f s) = true.
Proof.
  induction s as [|c s IH]; [reflexivity|]. simpl.
  destruct (f c) eqn:E; simpl; [rewrite E, IH|]; auto.
Qed.

Lemma strip_prefix_app (p s : string) : strip_prefix p (append p s) = Some s.
Proof. induction p as [|c p IH]; simpl; [reflexivity|]. rewrite Ascii.eqb_refl. exact IH. Qed.

Lemma audio_extension_safe (sub : string) :
  audio_extension sub <> "" /\ str_forallb is_alnum (audio_extension sub) = true.
Proof.
  unfold audio_extension.
  destruct (String.eqb (str_filter is_alnum _) "") eqn:E.
  - split; [discriminate|reflexivity].
  - split; [apply String.eqb_neq; exact E|apply str_forallb_filter].
Qed.

Lemma remove_ws_b64 (s : string) :
  str_forallb is_b64 (remove_ws s) = str_forallb (fun c => is_b64 c || is_js_space c) s.
Proof.
  induction s as [|c s IH]; [reflexivity|]. simpl.
  destruct (is_js_space c) eqn:E; simpl.
  - rewrite orb_true_r. exact IH.
  - rewrite orb_false_r, IH. reflexivity.
Qed.

Lemma str_forallb_ltrim (f : Ascii.ascii -> bool) (s : string) :
  (forall c, is_js_space c = true -> f c = true) ->
  str_forallb f (ltrim s) = str_forallb f s.
Proof.
  intro Hf. induction s as [|c s IH]; [reflexivity|]. simpl.
  destruct (is_js_space c) eqn:E; [rewrite (Hf c E), IH; reflexivity|reflexivity].
Qed.

Lemma str_forallb_rtrim (f : Ascii.ascii -> bool) (s : string) :
  (forall c, is_js_space c = true -> f c = true) ->
  str_forallb f (rtrim s) = str_forallb f s.
Proof.
  intro Hf. induction s as [|c s IH]; [reflexivity|]. simpl.
  destruct (String.eqb (rtrim s) "" && is_js_space c) eqn:E.
  - apply andb_true_iff in E as [E1 E2]. apply String.eqb_eq in E1.
    rewrite (Hf c E2). simpl. rewrite <- IH, E1. reflexivity.
  - simpl. rewrite IH. reflexivity.
Qed.

Lemma str_forallb_trim (f : Ascii.ascii -> bool) (s : string) :
  (forall c, is_js_space c = true -> f c = true) ->
  str_forallb f (trim s) = str_forallb f s.
Proof.
  intro Hf. unfold trim. rewrite str_forallb_rtrim by exact Hf. apply str_forallb_ltrim. exact Hf.
Qed.

Lemma rtrim_empty (s : string) : rtrim s = "" -> str_forallb is_js_space s = true.
Proof.
  induction s as [|c s IH]; [reflexivity|]. simpl.
  destruct (String.eqb (rtrim s) "" && is_js_space c) eqn:E; [|discriminate].
  apply andb_true_iff in E as [E1 E2]. apply String.eqb_eq in E1. rewrite E2, IH; auto.
Qed.

Lemma ltrim_empty (s : string) : str_forallb is_js_space (ltrim s) = true -> str_forallb is_js_space s = true.
Proof.
  induction s as [|c s IH]; [reflexivity|]. simpl.
  destruct (is_js_space c) eqn:E; simpl; [exact IH|]. rewrite E. discriminate.
Qed.

Lemma trim_empty (s : string) : trim s = "" -> str_forallb is_js_space s = true.
Proof. unfold trim. intro H. apply ltrim_empty. apply rtrim_empty. exact H. Qed.

Lemma remove_ws_ltrim (s : string) : remove_ws (ltrim s) = remove_ws s.
Proof.
  induction s as [|c s IH]; [reflexivity|]. simpl.
  destruct (is_js_space c) eqn:E; [exact IH|]. simpl. rewrite E. reflexivity.
Qed.

Lemma remove_ws_rtrim (s : string) : remove_ws (rtrim s) = remove_ws s.
Proof.
  induction s as [|c s IH]; [reflexivity|]. simpl.
  destruct (String.eqb (rtrim s) "" && is_js_space c) eqn:E.
  - apply andb_true_iff in E as [E1 E2]. apply String.eqb_eq in E1.
    rewrite E2, <- IH, E1. reflexivity.
  - simpl. rewrite IH. reflexivity.
Qed.

Lemma remove_ws_trim (s : string) : remove_ws (trim s) = remove_ws s.
Proof. unfold trim. rewrite remove_ws_rtrim. apply remove_ws_ltrim. Qed.

Lemma parseAudioDataUri_safe (s ext b : string) :
  parseAudioDataUri s = Some (ext, b) ->
  ext <> "" /\ str_forallb is_alnum ext = true /\ str_forallb is_b64 b = true.
Proof.
  unfold parseAudioDataUri.
  destruct (strip_prefix "data:audio/" s) as [r|]; [|discriminate].
  destruct (span is_subtype_char r) as [sub rest].
  destruct (String.eqb sub ""); [discriminate|].
  destruct (strip_prefix ";base64," rest) as [d|]; [|discriminate].
  destruct (negb (String.eqb d "") && str_forallb _ d) eqn:E; [|discriminate].
  intro H; injection H as <- <-. apply andb_true_iff in E as [_ E].
  destruct (audio_extension_safe sub) as [H1 H2].
  repeat split; try assumption. rewrite remove_ws_b64. exact E.
Qed.

(** [X1]: parseAudioInput accepts an input only with a non-empty,
    purely alphanumeric extension, and the base64 payload it hands on
    (whitespace removed) consists of base64 characters only. *)
Lemma X_parseAudioInput_safe (v : option string) (ext b : string) :
  parseAudioInput v = inr (ext, b) ->
  ext <> "" /\ str_forallb is_alnum ext = true /\ str_forallb is_b64 b = true.
Proof.
  destruct v as [s|]; simpl; [|discriminate].
  destruct (String.eqb (trim s) ""); [discriminate|].
  destruct (parseAudioDataUri (trim s)) as [[e d]|] eqn:E.
  - intro H; injection H as <- <-. exact (parseAudioDataUri_safe _ _ _ E).
  - destruct (negb _ && str_forallb is_b64 _) eqn:F; [|discriminate].
    intro H; injection H as <- <-. apply andb_true_iff in F as [_ F].
    split; [discriminate|split; [reflexivity|exact F]].
Qed.

Lemma X_parseAudioInput_safe_witness :
  parseAudioInput (Some " data:audio/x-wav+xml;base64,UklG RgA= ") = inr ("wav", "UklGRgA=") /\
  ("wav" <> "" /\ str_forallb is_alnum "wav" = true /\ str_forallb is_b64 "UklGRgA=" = true).
Proof.
  assert (H : parseAudioInput (Some " data:audio/x-wav+xml;base64,UklG RgA= ") = inr ("wav", "UklGRgA="))
    by (vm_compute; reflexivity).
  split; [exact H|exact (X_parseAudioInput_safe _ _ _ H)].
Defined.

Lemma is_space_b64 (c : Ascii.ascii) : is_js_space c = true -> is_b64 c || is_js_space c = true.
Proof. intro H; rewrite H, orb_true_r; reflexivity. Qed.

Lemma strip_prefix_Some (p t r : string) : strip_prefix p t = Some r -> t = append p r.
Proof.
  revert t. induction p as [|a p IH]; intros t H.
  - injection H as <-. reflexivity.
  - destruct t as [|b t]; [discriminate|]. simpl in H.
    destruct (Ascii.eqb a b) eqn:E; [|discriminate].
    apply Ascii.eqb_eq in E as <-. rewrite (IH t H). reflexivity.
Qed.

Lemma strip_prefix_data_forallb (t r : string) :
  strip_prefix "data:audio/" t = Some r ->
  str_forallb (fun c => is_b64 c || is_js_space c) t = false.
Proof. intro H. apply strip_prefix_Some in H. subst t. reflexivity. Qed.

(** [X2]: The error paths of parseAudioInput: a non-string is
    rejected as not a base64 string; a blank string as empty; a string that
    does not start (after trim) with [data:audio/] and has a character that is
    neither base64 nor whitespace as invalid base64; a non-blank string of base64
    characters and whitespace is accepted as raw base64 with extension [audio]
    and its whitespace removed. *)
Lemma X_parseAudioInput_errors (s : string) :
  parseAudioInput None = inl "audioFile must be a base64-encoded string" /\
  (str_forallb is_js_space s = true -> parseAudioInput (Some s) = inl "audioFile cannot be empty") /\
  (strip_prefix "data:audio/" (trim s) = None ->
   str_forallb (fun c => is_b64 c || is_js_space c) s = false ->
   parseAudioInput (Some s) = inl "audioFile is not valid base64 data") /\
  (str_forallb (fun c => is_b64 c || is_js_space c) s = true ->
   str_forallb is_js_space s = false ->
   parseAudioInput (Some s) = inr ("audio", remove_ws s)).
Proof.
  split; [reflexivity|]. split; [|split].
  - intro H. simpl.
    assert (E : trim s = "").
    { unfold trim. induction s as [|c s IH]; [reflexivity|]. simpl in H |- *.
      apply andb_true_iff in H as [H1 H2]. rewrite H1. exact (IH H2). }
    rewrite E. reflexivity.
  - intros HP HF. simpl.
    destruct (String.eqb (trim s) "") eqn:E.
    { apply String.eqb_eq, trim_empty in E.
      assert (str_forallb (fun c => is_b64 c || is_js_space c) s = true) as C.
      { clear -E. induction s as [|c s IH]; [reflexivity|]. simpl in E |- *.
        apply andb_true_iff in E as [E1 E2]. rewrite E1, orb_true_r, IH; auto. }
      congruence. }
    unfold parseAudioDataUri. rewrite HP.
    rewrite remove_ws_b64, str_forallb_trim, HF, andb_false_r by exact is_space_b64.
    reflexivity.
  - intros HA HF. simpl.
    destruct (String.eqb (trim s) "") eqn:E.
    { apply String.eqb_eq, trim_empty in E. congruence. }
    assert (HP : parseAudioDataUri (trim s) = None).
    { unfold parseAudioDataUri.
      destruct (strip_prefix "data:audio/" (trim s)) as [r|] eqn:SP; [|reflexivity].
      apply strip_prefix_data_forallb in SP.
      rewrite str_forallb_trim in SP by exact is_space_b64. congruence. }
    rewrite HP, remove_ws_trim, remove_ws_b64, HA, andb_true_r.
    destruct (String.eqb (remove_ws s) "") eqn:R; [|reflexivity].
    exfalso. apply String.eqb_eq in R.
    clear -R HF. induction s as [|c s IH]; [discriminate|]. simpl in R, HF.
    destruct (is_js_space c); [exact (IH HF R)|discriminate].
Qed.

Lemma X_parseAudioInput_errors_witness :
  parseAudioInput (Some "  ") = inl "audioFile cannot be empty" /\
  parseAudioInput (Some "abc!") = inl "audioFile is not valid base64 data" /\
  parseAudioInput (Some " SGVs bG8= ") = inr ("audio", "SGVsbG8=").
Proof.
  split; [|split].
  - exact (proj1 (proj2 (X_parseAudioInput_errors "  ")) eq_refl).
  - exact (proj1 (proj2 (proj2 (X_parseAudioInput_errors "abc!"))) eq_refl eq_refl).
  - exact (proj2 (proj2 (proj2 (X_parseAudioInput_errors " SGVs bG8= "))) eq_refl eq_refl).
Defined.

Lemma span_app (f : Ascii.ascii -> bool) (x : string) (c : Ascii.ascii) (y : string) :
  str_forallb f x = true -> f c = false -> span f (append x (String c y)) = (x, String c y).
Proof.
  intros Hx Hc. induction x as [|a x IH]; simpl.
  - rewrite Hc. reflexivity.
  - simpl in Hx. apply andb_true_iff in Hx as [H1 H2]. rewrite H1, (IH H2). reflexivity.
Qed.

Lemma span_spec (f : Ascii.ascii -> bool) (s a b : string) :
  span f s = (a, b) ->
  s = append a b /\ str_forallb f a = true /\
  match b with String c _ => f c = false | EmptyString => True end.
Proof.
  revert a b. induction s as [|c s IH]; intros a b H; simpl in H.
  - injection H as <- <-. auto.
  - destruct (f c) eqn:E.
    + destruct (span f s) as [a' b'] eqn:S. injection H as <- <-.
      destruct (IH a' b' eq_refl) as [-> [H2 H3]]. simpl. rewrite E, H2. auto.
    + injection H as <- <-. simpl. auto.
Qed.

(** [X3]: parseAudioDataUri succeeds exactly on
    [data:audio/<subtype>;base64,<data>] with a non-empty subtype of
    [a-zA-Z0-9.+-] and non-empty data of base64 characters and whitespace; the
    extension is derived from the subtype and the payload is the data without
    whitespace. *)
Lemma X_parseAudioDataUri_iff (s ext b : string) :
  parseAudioDataUri s = Some (ext, b) <->
  exists mimeSubtype base64Data,
    s = append "data:audio/" (append mimeSubtype (append ";base64," base64Data)) /\
    mimeSubtype <> "" /\ str_forallb is_subtype_char mimeSubtype = true /\
    base64Data <> "" /\ str_forallb (fun c => is_b64 c || is_js_space c) base64Data = true /\
    ext = audio_extension mimeSubtype /\ b = remove_ws base64Data.
Proof.
  split.
  - unfold parseAudioDataUri.
    destruct (strip_prefix "data:audio/" s) as [r|] eqn:P; [|discriminate].
    destruct (span is_subtype_char r) as [sub rest] eqn:S.
    destruct (String.eqb sub "") eqn:E0; [discriminate|].
    destruct (strip_prefix ";base64," rest) as [d|] eqn:P2; [|discriminate].
    destruct (negb (String.eqb d "") && str_forallb _ d) eqn:E; [|discriminate].
    intro H; injection H as <- <-. apply andb_true_iff in E as [E1 E2].
    apply strip_prefix_Some in P. apply strip_prefix_Some in P2.
    destruct (span_spec _ _ _ _ S) as [-> [H2 _]]. subst.
    exists sub, d. repeat split; auto.
    + apply String.eqb_neq. exact E0.
    + apply String.eqb_neq. destruct (String.eqb d ""); [discriminate|reflexivity].
  - intros (sub & d & -> & H1 & H2 & H3 & H4 & -> & ->).
    unfold parseAudioDataUri. rewrite strip_prefix_app.
    change (append ";base64," d) with (String (chr 59) (append "base64," d)).
    rewrite (span_app _ sub (chr 59) (append "base64," d) H2 eq_refl).
    apply String.eqb_neq in H1. rewrite H1.
    change (String (chr 59) (append "base64," d)) with (append ";base64," d).
    rewrite strip_prefix_app.
    apply String.eqb_neq in H3. rewrite H3, H4. reflexivity.
Qed.

Lemma X_parseAudioDataUri_iff_witness :
  parseAudioDataUri "data:audio/x-wav+xml;base64,UklG RgA=" = Some ("wav", "UklGRgA=").
Proof.
  apply (proj2 (X_parseAudioDataUri_iff _ _ _)).
  exists "x-wav+xml", "UklG RgA=".
  split; [reflexivity|]. split; [discriminate|]. split; [reflexivity|].
  split; [discriminate|]. split; [reflexivity|]. split; reflexivity.
Defined.

Lemma to_lower_char_idem (c : Ascii.ascii) : to_lower_char (to_lower_char c) = to_lower_char c.
Proof. destruct c as [[] [] [] [] [] [] [] []]; reflexivity. Qed.

Lemma to_lower_char_space (c : Ascii.ascii) : is_js_space (to_lower_char c) = is_js_space c.
Proof. destruct c as [[] [] [] [] [] [] [] []]; reflexivity. Qed.

Lemma to_lower_char_59 (c : Ascii.ascii) : char_eqb (to_lower_char c) 59 = char_eqb c 59.
Proof. destruct c as [[] [] [] [] [] [] [] []]; reflexivity. Qed.

Lemma to_lower_idem (s : string) : to_lower (to_lower s) = to_lower s.
Proof. induction s as [|c s IH]; simpl; [reflexivity|]. rewrite to_lower_char_idem, IH. reflexivity. Qed.

Lemma to_lower_empty (s : string) : String.eqb (to_lower s) "" = String.eqb s "".
Proof. destruct s; reflexivity. Qed.

Lemma ltrim_to_lower (s : string) : ltrim (to_lower s) = to_lower (ltrim s).
Proof.
  induction s as [|c s IH]; simpl; [reflexivity|].
  rewrite to_lower_char_space. destruct (is_js_space c); [exact IH|reflexivity].
Qed.

Lemma rtrim_to_lower (s : string) : rtrim (to_lower s) = to_lower (rtrim s).
Proof.
  induction s as [|c s IH]; simpl; [reflexivity|].
  rewrite IH, to_lower_empty, to_lower_char_space.
  destruct (String.eqb (rtrim s) "" && is_js_space c); reflexivity.
Qed.

Lemma trim_to_lower (s : string) : trim (to_lower s) = to_lower (trim s).
Proof. unfold trim. rewrite ltrim_to_lower. apply rtrim_to_lower. Qed.

Lemma before_to_lower (s : string) : before_char 59 (to_lower s) = to_lower (before_char 59 s).
Proof.
  unfold before_char. induction s as [|c s IH]; simpl; [reflexivity|].
  rewrite to_lower_char_59. destruct (char_eqb c 59); simpl; [reflexivity|].
  destruct (span _ (to_lower s)) as [a1 b1]. destruct (span _ s) as [a2 b2].
  simpl in IH |- *. rewrite IH. reflexivity.
Qed.

Lemma before_params (m p : string) : before_char 59 (append m (String (chr 59) p)) = before_char 59 m.
Proof.
  unfold before_char. induction m as [|c m IH]; simpl; [reflexivity|].
  destruct (char_eqb c 59); simpl; [reflexivity|].
  destruct (span _ (append m _)) as [a1 b1]. destruct (span _ m) as [a2 b2].
  simpl in IH |- *. rewrite IH. reflexivity.
Qed.

Lemma or_default_empty (s : string) : or_default (Some s) "" = s.
Proof. simpl. destruct (String.eqb s "") eqn:E; [apply String.eqb_eq in E; auto|reflexivity]. Qed.

Lemma mime_base_lower (m : option string) : to_lower (mime_base m) = mime_base m.
Proof. unfold mime_base. apply to_lower_idem. Qed.

(** [X4]: The MIME lookups ignore parameters after the first [;] and
    letter case: the normalised base type of [m;p] is that of [m], and that of
    the lowercased [m] is that of [m]. *)
Lemma X_mime_base_normalises (m p : string) :
  mime_base (Some (append m (String (chr 59) p))) = mime_base (Some m) /\
  mime_base (Some (to_lower m)) = mime_base (Some m).
Proof.
  unfold mime_base. rewrite !or_default_empty. split.
  - rewrite before_params. reflexivity.
  - rewrite before_to_lower, trim_to_lower. apply to_lower_idem.
Qed.

Lemma proto_lower (b : string) :
  to_lower b = b -> str_mem b object_proto_names = true ->
  b = "constructor" \/ b = "__proto__".
Proof.
  intros L H. unfold str_mem, object_proto_names in H. cbn [existsb] in H.
  repeat (apply orb_true_iff in H as [H|H]);
    first [apply String.eqb_eq in H; subst b; first [now left|now right|discriminate L]
          |discriminate H].
Qed.

Lemma assoc_str_In (k v : string) (mp : list (string * string)) :
  assoc_str k mp = Some v -> In v (map snd mp).
Proof.
  induction mp as [|[k' v'] mp IH]; simpl; [discriminate|].
  destruct (String.eqb k k'); [intro H; injection H as ->; now left|intro H; right; auto].
Qed.

Lemma obj_lookup_range (mp : list (string * string)) (b d : string) :
  to_lower b = b ->
  match obj_lookup_or mp b d with
  | PVStr e => In e (d :: map snd mp)
  | PVProto n => n = b /\ (n = "constructor" \/ n = "__proto__")
  end.
Proof.
  intro L. unfold obj_lookup_or.
  destruct (assoc_str b mp) as [v|] eqn:A.
  - destruct (String.eqb v ""); [now left|right; exact (assoc_str_In _ _ _ A)].
  - destruct (str_mem b object_proto_names) eqn:P; [|now left].
    split; [reflexivity|exact (proto_lower b L P)].
Qed.

(** [X5]: getExtFromMimeType and getMimeTypeToFormat only ever yield one
    of the extensions (formats) of their tables, or the inherited Object
    prototype member, and then the normalised type is [constructor] or
    [__proto__]. *)
Lemma X_mime_lookup_range (m : option string) :
  match getExtFromMimeType m with
  | PVStr e => In e ["mp4"; "webm"; "mov"; "avi"; "mkv"; "flv"; "ogv";
                     "mp3"; "wav"; "aac"; "ogg"; "flac"; "m4a"]
  | PVProto n => n = mime_base m /\ (n = "constructor" \/ n = "__proto__")
  end /\
  match getMimeTypeToFormat m with
  | PVStr e => In e ["mp4"; "webm"; "mov"; "avi"; "matroska"; "flv"; "ogg";
                     "mp3"; "wav"; "aac"; "flac"; "m4a"]
  | PVProto n => n = mime_base m /\ (n = "constructor" \/ n = "__proto__")
  end.
Proof.
  pose proof (obj_lookup_range mime_ext_map (mime_base m) "mp4" (mime_base_lower m)) as H1.
  pose proof (obj_lookup_range mime_format_map (mime_base m) "mp4" (mime_base_lower m)) as H2.
  unfold getExtFromMimeType, getMimeTypeToFormat.
  split; [destruct (obj_lookup_or mime_ext_map _ _) as [e|n]
         |destruct (obj_lookup_or mime_format_map _ _) as [e|n]]; try assumption;
    [clear H2; rename H1 into H|clear H1; rename H2 into H]; simpl in H;
    repeat (destruct H as [<-|H]; [simpl; tauto|]); destruct H.
Qed.

(** [X6]: The content types the streaming endpoint answers with are
    read back by getExtFromMimeType as the format they were produced for, for
    every advertised video format and every advertised audio format except
    [wma], whose type [audio/x-ms-wma] is read back as [mp4]. *)
Theorem X_content_type_round_trip :
  (forall f, In f advertised_video_formats ->
     getExtFromMimeType (Some (video_content_type f)) = PVStr f) /\
  (forall f, In f advertised_audio_formats -> f <> "wma" ->
     getExtFromMimeType (Some (audio_content_type f)) = PVStr f) /\
  getExtFromMimeType (Some (audio_content_type "wma")) = PVStr "mp4".
Proof.
  split; [|split].
  - intros f H. repeat (destruct H as [<-|H]; [vm_compute; reflexivity|]). destruct H.
  - intros f H N. repeat (destruct H as [<-|H]; [vm_compute; reflexivity|]).
    + destruct H as [<-|[]]. exfalso. apply N. reflexivity.
  - vm_compute. reflexivity.
Qed.

Lemma X_content_type_round_trip_witness :
  getExtFromMimeType (Some (video_content_type "mkv")) = PVStr "mkv" /\
  getExtFromMimeType (Some (audio_content_type "m4a")) = PVStr "m4a".
Proof.
  split.
  - apply (proj1 X_content_type_round_trip). right; right; right; right; left; reflexivity.
  - apply (proj1 (proj2 X_content_type_round_trip)); [right; right; right; right; right; left; reflexivity|discriminate].
Defined.

Lemma ts_scan_O (c : Ascii.ascii) (t : string) :
  ts_scan 0 (String c t) =
  if ts_at (String c t) then String c (ts_scan 11 t) else String c (ts_scan 0 t).
Proof. reflexivity. Qed.

Lemma ts_at_digit (a : Ascii.ascii) (t : string) : ts_at (String a t) = true -> is_digit a = true.
Proof.
  intro H. destruct (is_digit a) eqn:E; [reflexivity|].
  destruct t as [|a2 [|c1 [|a3 [|a4 [|c2 [|a5 [|a6 [|cm [|m1 [|m2 [|m3 rest]]]]]]]]]]];
    try discriminate.
  cbn [ts_at] in H. rewrite E in H. discriminate.
Qed.

Lemma ts_pass_nodigit (a : Ascii.ascii) (t : string) :
  is_digit a = false -> ts_pass (String a t) = String a (ts_pass t).
Proof.
  intro H. unfold ts_pass. rewrite ts_scan_O.
  destruct (ts_at (String a t)) eqn:E; [|reflexivity].
  apply ts_at_digit in E. congruence.
Qed.

Lemma ts_pass_time (hh mm ss ms rest : string) :
  digits 2 hh = true -> digits 2 mm = true -> digits 2 ss = true -> digits 3 ms = true ->
  ts_pass (append (srt_time hh mm ss ms (chr 44)) rest) =
  append (srt_time hh mm ss ms (chr 46)) (ts_pass rest).
Proof.
  intros H1 H2 H3 H4.
  destruct hh as [|h1 [|h2 [|]]]; try discriminate.
  destruct mm as [|n1 [|n2 [|]]]; try discriminate.
  destruct ss as [|s1 [|s2 [|]]]; try discriminate.
  destruct ms as [|x1 [|x2 [|x3 [|]]]]; try discriminate.
  unfold digits in *; simpl in H1, H2, H3, H4.
  rewrite !andb_true_r in H1, H2, H3, H4.
  apply andb_true_iff in H1 as [E1 E2]. apply andb_true_iff in H2 as [E3 E4].
  apply andb_true_iff in H3 as [E5 E6]. apply andb_true_iff in H4 as [E7 E8].
  apply andb_true_iff in E8 as [E8 E9].
  unfold srt_time, ts_pass. cbn [append]. rewrite ts_scan_O.
  cbn [ts_at]. rewrite E1, E2, E3, E4, E5, E6, E7, E8, E9. reflexivity.
Qed.

Lemma crlf_pass_cons (a : Ascii.ascii) (t : string) :
  char_eqb a 13 = false -> crlf_pass (String a t) = String a (crlf_pass t).
Proof.
  intro H. destruct t as [|b r]; [reflexivity|].
  change (crlf_pass (String a (String b r))) with
    (if char_eqb a 13 && char_eqb b 10 then String b (crlf_pass r)
     else String a (crlf_pass (String b r))).
  rewrite H. reflexivity.
Qed.

Lemma crlf_pass_app (x r : string) :
  str_forallb (fun c => negb (char_eqb c 13)) x = true ->
  crlf_pass (append x r) = append x (crlf_pass r).
Proof.
  induction x as [|a x IH]; intro H; [reflexivity|].
  simpl in H. apply andb_true_iff in H as [Ha Hx]. apply negb_true_iff in Ha.
  change (append (String a x) r) with (String a (append x r)).
  rewrite crlf_pass_cons by exact Ha. rewrite (IH Hx). reflexivity.
Qed.

Lemma str_forallb_app (f : Ascii.ascii -> bool) (x y : string) :
  str_forallb f (append x y) = str_forallb f x && str_forallb f y.
Proof. induction x as [|z x IH]; simpl; [reflexivity|]. rewrite IH. apply andb_assoc. Qed.

Lemma digits_no_cr (n : nat) (s : string) :
  digits n s = true -> str_forallb (fun c => negb (char_eqb c 13)) s = true.
Proof.
  intro H. unfold digits in H. apply andb_true_iff in H as [_ H].
  induction s as [|c s IH]; [reflexivity|]. simpl in H |- *.
  apply andb_true_iff in H as [Hc Hs]. rewrite (IH Hs), andb_true_r.
  unfold is_digit, char_eqb in *. apply andb_true_iff in Hc as [A B].
  apply Nat.leb_le in A. apply Nat.leb_le in B. apply negb_true_iff, Nat.eqb_neq. lia.
Qed.

Lemma srt_time_no_cr (hh mm ss ms : string) (sep : Ascii.ascii) :
  digits 2 hh = true -> digits 2 mm = true -> digits 2 ss = true -> digits 3 ms = true ->
  char_eqb sep 13 = false ->
  str_forallb (fun c => negb (char_eqb c 13)) (srt_time hh mm ss ms sep) = true.
Proof.
  intros H1 H2 H3 H4 H5. unfold srt_time.
  rewrite !str_forallb_app, (digits_no_cr _ _ H1), (digits_no_cr _ _ H2), (digits_no_cr _ _ H3).
  simpl. rewrite H5, (digits_no_cr _ _ H4). reflexivity.
Qed.

(** [X7]: srtToVtt turns an SRT timing line [hh:mm:ss,mmm --> hh:mm:ss,mmm]
    (two-digit hours, minutes, seconds and three-digit milliseconds) into the
    WebVTT one with dots, behind the [WEBVTT] header. *)
Theorem X_srtToVtt_timing_line (hh mm ss ms hh' mm' ss' ms' rest : string) :
  digits 2 hh = true -> digits 2 mm = true -> digits 2 ss = true -> digits 3 ms = true ->
  digits 2 hh' = true -> digits 2 mm' = true -> digits 2 ss' = true -> digits 3 ms' = true ->
  srtToVtt (append (srt_time hh mm ss ms (chr 44))
             (append " --> " (append (srt_time hh' mm' ss' ms' (chr 44)) rest))) =
  append ("WEBVTT" ++ nl ++ nl)
    (append (srt_time hh mm ss ms (chr 46))
       (append " --> " (append (srt_time hh' mm' ss' ms' (chr 46)) (ts_pass (crlf_pass rest))))).
Proof.
  intros H1 H2 H3 H4 H5 H6 H7 H8. unfold srtToVtt. f_equal.
  rewrite crlf_pass_app by (apply srt_time_no_cr; auto).
  rewrite (crlf_pass_app " --> ") by reflexivity.
  rewrite crlf_pass_app by (apply srt_time_no_cr; auto).
  rewrite ts_pass_time by assumption. f_equal.
  change (append " --> " ?x) with
    (String (chr 32) (String (chr 45) (String (chr 45) (String (chr 62) (String (chr 32) x))))).
  rewrite !ts_pass_nodigit by reflexivity.
  rewrite ts_pass_time by assumption. reflexivity.
Qed.

Lemma X_srtToVtt_timing_line_witness :
  srtToVtt "00:00:01,000 --> 00:00:02,500" = append ("WEBVTT" ++ nl ++ nl) "00:00:01.000 --> 00:00:02.500".
Proof.
  exact (X_srtToVtt_timing_line "00" "00" "01" "000" "00" "00" "02" "500" ""
           eq_refl eq_refl eq_refl eq_refl eq_refl eq_refl eq_refl eq_refl).
Defined.



Lemma ts_at_comma (c : Ascii.ascii) (t : string) :
  ts_at (String c t) = true -> String.get 7 t = Some (chr 44).
Proof.
  destruct t as [|a2 [|c1 [|a3 [|a4 [|c2 [|a5 [|a6 [|cm [|m1 [|m2 [|m3 rest]]]]]]]]]]];
    try discriminate.
  cbn [ts_at]. intro H.
  repeat (apply andb_true_iff in H as [H ?]).
  match goal with Hc : char_eqb cm 44 = true |- _ =>
    unfold char_eqb, code in Hc; apply Nat.eqb_eq in Hc end.
  simpl. f_equal. rewrite <- (Ascii.ascii_nat_embedding cm). unfold chr. congruence.
Qed.

Lemma ts_scan_commas (s : string) (k : nat) :
  (4 <= k -> String.get (k - 4) s = Some (chr 44)) ->
  dots_for_commas s (ts_scan k s) = true.
Proof.
  revert k. induction s as [|c t IH]; intros k P; [reflexivity|].
  destruct k as [|k'].
  - unfold ts_scan; fold ts_scan. destruct (ts_at (String c t)) eqn:E.
    + simpl. rewrite Ascii.eqb_refl. simpl. apply IH. intros _. exact (ts_at_comma _ _ E).
    + simpl. rewrite Ascii.eqb_refl. simpl. apply IH. lia.
  - cbn [ts_scan dots_for_commas].
    destruct (Nat.eqb k' 3) eqn:E3.
    + apply Nat.eqb_eq in E3. subst k'. specialize (P (le_n 4)). simpl in P.
      injection P as ->. simpl. apply IH. lia.
    + rewrite Ascii.eqb_refl. simpl. apply IH. intro H4.
      apply Nat.eqb_neq in E3. rewrite <- P by lia.
      replace (S k' - 4) with (S (k' - 4)) by lia. reflexivity.
Qed.

(** [X8]: srtToVtt only prefixes the [WEBVTT] header to the CRLF-normalised
    input and otherwise replaces some commas by dots: the body has the same
    length and agrees with the normalised input at every other position. *)
Theorem X_srtToVtt_changes_only_commas (s : string) :
  exists body, srtToVtt s = append ("WEBVTT" ++ nl ++ nl) body /\
               dots_for_commas (crlf_pass s) body = true.
Proof.
  exists (ts_pass (crlf_pass s)). split; [reflexivity|].
  apply ts_scan_commas. lia.
Qed.

Lemma crlf_pass_filter_n (n : nat) (s : string) :
  String.length s <= n -> crlf_ok s = true ->
  crlf_pass s = str_filter (fun c => negb (char_eqb c 13)) s.
Proof.
  revert s. induction n as [|n IH]; intros s L H.
  - destruct s; [reflexivity|simpl in L; lia].
  - destruct s as [|a [|b r]]; [reflexivity| |].
    + simpl in H. rewrite andb_true_r, orb_false_r in H. simpl. rewrite H. reflexivity.
    + change (crlf_pass (String a (String b r))) with
        (if char_eqb a 13 && char_eqb b 10 then String b (crlf_pass r)
         else String a (crlf_pass (String b r))).
      simpl in L. cbn [crlf_ok] in H.
      apply andb_true_iff in H as [Ha H]. apply andb_true_iff in H as [Hb H].
      destruct (char_eqb a 13) eqn:E; simpl in Ha.
      * rewrite Ha. simpl. rewrite E. simpl.
        assert (E10 : char_eqb b 13 = false) by (unfold char_eqb in *; apply Nat.eqb_eq in Ha; rewrite Ha; reflexivity).
        rewrite E10. simpl. f_equal. apply IH; [lia|].
        destruct r; [reflexivity|]. exact H.
      * cbn [andb]. rewrite (IH (String b r)).
        -- cbn [str_filter]. rewrite E. reflexivity.
        -- simpl. lia.
        -- cbn [crlf_ok]. rewrite Hb, H. reflexivity.
Qed.

(** [X9]: When every carriage return of the input starts a CRLF pair, the
    line-ending normalisation of srtToVtt just deletes the carriage returns. *)
Theorem X_crlf_pass_drops_cr (s : string) :
  crlf_ok s = true -> crlf_pass s = str_filter (fun c => negb (char_eqb c 13)) s.
Proof. apply crlf_pass_filter_n with (n := String.length s). lia. Qed.

Lemma X_crlf_pass_drops_cr_witness :
  let s := String (chr 97) (String (chr 13) (String (chr 10) (String (chr 98) EmptyString))) in
  crlf_ok s = true /\ crlf_pass s = String (chr 97) (String (chr 10) (String (chr 98) EmptyString)).
Proof.
  intro s. split; [reflexivity|]. rewrite (X_crlf_pass_drops_cr s eq_refl). reflexivity.
Defined.

Lemma strip_trailing_slashes_end (s : string) : ends_with_slash (strip_trailing_slashes s) = false.
Proof.
  induction s as [|c s IH]; [reflexivity|]. simpl.
  destruct (String.eqb (strip_trailing_slashes s) "") eqn:E.
  - apply String.eqb_eq in E. rewrite E. simpl.
    destruct (char_eqb c 47) eqn:C; simpl; [reflexivity|exact C].
  - rewrite andb_false_l. destruct (strip_trailing_slashes s) eqn:R; [discriminate|]. exact IH.
Qed.

Lemma strip_trailing_slashes_slash (s : string) :
  strip_trailing_slashes (append s "/") = strip_trailing_slashes s.
Proof. induction s as [|c s IH]; [reflexivity|]. simpl. rewrite IH. reflexivity. Qed.

(** [X10]: The base URL derived from a non-empty APP_BASE_URL never ends in
    a slash, and adding a slash to APP_BASE_URL does not change it. *)
Theorem X_getBaseUrl_no_trailing_slash (u protocol host : string) :
  u <> "" ->
  ends_with_slash (getBaseUrlFromRequest (Some u) protocol host) = false /\
  getBaseUrlFromRequest (Some (append u "/")) protocol host = getBaseUrlFromRequest (Some u) protocol host.
Proof.
  intro H. apply String.eqb_neq in H. simpl. rewrite H.
  replace (String.eqb (append u "/") "") with false by (destruct u; reflexivity).
  split; [apply strip_trailing_slashes_end|apply strip_trailing_slashes_slash].
Qed.

Lemma X_getBaseUrl_no_trailing_slash_witness :
  "https://x.io//" <> "" /\
  ends_with_slash (getBaseUrlFromRequest (Some "https://x.io//") "http" "h") = false /\
  getBaseUrlFromRequest (Some "https://x.io///") "http" "h" =
    getBaseUrlFromRequest (Some "https://x.io//") "http" "h".
Proof.
  assert (H : "https://x.io//" <> "") by discriminate.
  split; [exact H|exact (X_getBaseUrl_no_trailing_slash "https://x.io//" "http" "h" H)].
Defined.

Lemma str_mem_In (x : string) (l : list string) : str_mem x l = true <-> In x l.
Proof.
  unfold str_mem. rewrite existsb_exists. split.
  - intros [y [Hy E]]. apply String.eqb_eq in E. subst. exact Hy.
  - intro Hx. exists x. split; [exact Hx|apply String.eqb_refl].
Qed.

Lemma allowed_nonempty (envPrice envAllowed : option string) (x : string) :
  In x (allowedStripePriceIds envPrice envAllowed) -> x <> "".
Proof.
  unfold allowedStripePriceIds. intros [<-|H].
  - unfold defaultStripePriceId, or_default. destruct envPrice as [p|]; [|discriminate].
    destruct (String.eqb p "") eqn:E; [discriminate|]. apply String.eqb_neq. exact E.
  - apply filter_In in H as [_ H]. apply negb_true_iff, String.eqb_neq in H. exact H.
Qed.

(** [X11]: create-checkout-session only creates a session for a non-empty
    price id from the allowed list, with success and cancel URLs under the
    request's base URL. *)
Theorem X_checkout_price_allowed (stripeConfigured : bool) (envPrice envAllowed appBaseUrl : option string)
  (protocol host : string) (priceId : price_arg) (p successUrl cancelUrl : string) :
  create_checkout stripeConfigured envPrice envAllowed appBaseUrl protocol host priceId =
    CheckoutCreate p successUrl cancelUrl ->
  In p (allowedStripePriceIds envPrice envAllowed) /\ p <> "" /\
  successUrl = append (getBaseUrlFromRequest appBaseUrl protocol host)
                      "/success?session_id={CHECKOUT_SESSION_ID}" /\
  cancelUrl = append (getBaseUrlFromRequest appBaseUrl protocol host) "/".
Proof.
  unfold create_checkout. intro E. destruct stripeConfigured; [|discriminate E]. cbn [negb] in E.
  destruct (match priceId with PriceStr s => _ | _ => _ end) as [q|]; [|discriminate E].
  destruct (str_mem q _) eqn:M; [|discriminate E].
  injection E as <- <- <-. apply str_mem_In in M.
  split; [exact M|]. split; [exact (allowed_nonempty _ _ _ M)|]. auto.
Qed.

Lemma X_checkout_price_allowed_witness :
  create_checkout true None (Some "price_a, price_b") (Some "https://x.io/") "http" "h"
    (PriceStr "price_b") =
    CheckoutCreate "price_b" "https://x.io/success?session_id={CHECKOUT_SESSION_ID}" "https://x.io/" /\
  In "price_b" (allowedStripePriceIds None (Some "price_a, price_b")) /\ "price_b" <> "" /\
  "https://x.io/success?session_id={CHECKOUT_SESSION_ID}" =
    append (getBaseUrlFromRequest (Some "https://x.io/") "http" "h")
           "/success?session_id={CHECKOUT_SESSION_ID}" /\
  "https://x.io/" = append (getBaseUrlFromRequest (Some "https://x.io/") "http" "h") "/".
Proof.
  assert (E : create_checkout true None (Some "price_a, price_b") (Some "https://x.io/") "http" "h"
    (PriceStr "price_b") =
    CheckoutCreate "price_b" "https://x.io/success?session_id={CHECKOUT_SESSION_ID}" "https://x.io/")
    by reflexivity.
  split; [exact E|exact (X_checkout_price_allowed _ _ _ _ _ _ _ _ _ _ E)].
Defined.

(** [X12]: create-checkout-session answers 503 whenever Stripe is not
    configured; 400 for a truthy non-string price id and for a non-empty price
    id outside the allowed list; an absent or falsy price id selects the
    default price. *)
Theorem X_checkout_selection (envPrice envAllowed appBaseUrl : option string) (protocol host s : string) :
  let baseUrl := getBaseUrlFromRequest appBaseUrl protocol host in
  let default := defaultStripePriceId envPrice in
  (forall priceId, create_checkout false envPrice envAllowed appBaseUrl protocol host priceId =
                   CheckoutError 503 "Stripe is not configured on this server") /\
  create_checkout true envPrice envAllowed appBaseUrl protocol host PriceTruthy =
    CheckoutError 400 "Invalid priceId" /\
  (forall priceId, In priceId [PriceAbsent; PriceFalsy; PriceStr ""] ->
     create_checkout true envPrice envAllowed appBaseUrl protocol host priceId =
     CheckoutCreate default (append baseUrl "/success?session_id={CHECKOUT_SESSION_ID}")
                    (append baseUrl "/")) /\
  (s <> "" -> ~ In s (allowedStripePriceIds envPrice envAllowed) ->
     create_checkout true envPrice envAllowed appBaseUrl protocol host (PriceStr s) =
     CheckoutError 400 "Invalid priceId").
Proof.
  intros baseUrl default. split; [reflexivity|]. split; [reflexivity|]. split.
  - assert (D : str_mem (defaultStripePriceId envPrice) (allowedStripePriceIds envPrice envAllowed) = true)
      by (apply str_mem_In; now left).
    intros priceId H.
    repeat (destruct H as [<-|H]; [unfold create_checkout; cbn [negb String.eqb]; rewrite D; reflexivity|]).
    destruct H.
  - intros H1 H2. unfold create_checkout. cbn [negb].
    apply String.eqb_neq in H1. rewrite H1.
    destruct (str_mem s _) eqn:M; [apply str_mem_In in M; contradiction|reflexivity].
Qed.

Lemma X_checkout_selection_witness :
  create_checkout true (Some "price_a") (Some "price_a, price_b") (Some "https://x.io") "http" "h"
    (PriceStr "price_z") = CheckoutError 400 "Invalid priceId" /\
  create_checkout true (Some "price_a") (Some "price_a, price_b") (Some "https://x.io") "http" "h"
    PriceAbsent =
    CheckoutCreate "price_a" "https://x.io/success?session_id={CHECKOUT_SESSION_ID}" "https://x.io/".
Proof.
  pose proof (X_checkout_selection (Some "price_a") (Some "price_a, price_b") (Some "https://x.io")
                "http" "h" "price_z") as H.
  cbv zeta in H. destruct H as [_ [_ [H3 H4]]]. split.
  - apply H4; [discriminate|]. intro I. apply str_mem_In in I. vm_compute in I. discriminate I.
  - exact (H3 PriceAbsent (or_introl eq_refl)).
Defined.

Lemma hex_of_bytes_length (bs : list nat) : String.length (hex_of_bytes bs) = 2 * List.length bs.
Proof. induction bs as [|b bs IH]; simpl; [reflexivity|]. rewrite IH. lia. Qed.

Lemma map_get_set (k : string) (v : jsnum) (m : token_map) : map_get k (map_set k v m) = Some v.
Proof.
  induction m as [|[k' v'] m IH]; simpl; [rewrite String.eqb_refl; reflexivity|].
  destruct (String.eqb k k') eqn:E; simpl; rewrite E; [reflexivity|exact IH].
Qed.

Lemma map_get_delete (k : string) (m : token_map) : map_get k (map_delete k m) = None.
Proof.
  unfold map_delete. induction m as [|[k' v'] m IH]; simpl; [reflexivity|].
  destruct (String.eqb k k') eqn:E; simpl; [exact IH|rewrite E; exact IH].
Qed.

Lemma map_delete_idem (k : string) (m : token_map) : map_delete k (map_delete k m) = map_delete k m.
Proof.
  unfold map_delete. induction m as [|[k' v'] m IH]; simpl; [reflexivity|].
  destruct (String.eqb k k') eqn:E; simpl; [exact IH|rewrite E; simpl; rewrite IH; reflexivity].
Qed.

Lemma ttl_shape (envTtl : option jsnum) :
  envTtl <> Some JNaN ->
  (exists q, SAMPLE_TOKEN_TTL_MS envTtl = JFin q /\ (60000 <= q)%Q) \/ SAMPLE_TOKEN_TTL_MS envTtl = JPosInf.
Proof.
  intro H. unfold SAMPLE_TOKEN_TTL_MS, jmax.
  destruct envTtl as [[y| | |]|]; try (exfalso; apply H; reflexivity).
  - simpl. unfold Qltb. destruct (Qle_bool y 60000) eqn:E; simpl.
    + left. exists 60000%Q. split; [reflexivity|apply Qle_refl].
    + left. exists y. split; [reflexivity|]. apply Qlt_le_weak, Qnot_le_lt.
      intro C. apply Qle_bool_iff in C. congruence.
  - right. reflexivity.
  - left. exists 60000%Q. split; [reflexivity|apply Qle_refl].
  - left. exists 600000%Q. split; [reflexivity|]. unfold Qle; simpl; lia.
Qed.

(** [X13]: A sample access token issued with a valid TTL is 64 hex
    characters long, validates (without changing the store) until its expiry,
    and after it fails validation, is deleted from the store and stays
    invalid. *)
Theorem X_sample_token_round_trip (envTtl : option jsnum) (bytes : list nat) (now t : Z) (m : token_map) :
  envTtl <> Some JNaN -> List.length bytes = 32 -> (0 <= now)%Z ->
  let ttl := SAMPLE_TOKEN_TTL_MS envTtl in
  let token := fst (issueSampleAccessToken ttl bytes now m) in
  let store := snd (issueSampleAccessToken ttl bytes now m) in
  let expiresAt := dadd (JFin (inject_Z now)) ttl in
  String.length token = 64 /\
  (jle (JFin (inject_Z t)) expiresAt = true ->
     validateSampleAccessToken t (Some token) store = (true, store)) /\
  (jlt expiresAt (JFin (inject_Z t)) = true ->
     validateSampleAccessToken t (Some token) store = (false, map_delete token store) /\
     forall t', validateSampleAccessToken t' (Some token) (map_delete token store) =
                (false, map_delete token store)).
Proof.
  intros Hn Hl H0 ttl token store expiresAt.
  assert (L : String.length token = 64) by (unfold token; simpl; rewrite hex_of_bytes_length, Hl; reflexivity).
  assert (G : map_get token store = Some expiresAt) by apply map_get_set.
  assert (NF : num_falsy (Some expiresAt) = false).
  { unfold expiresAt. destruct (ttl_shape envTtl Hn) as [[q [Eq Hq]]|Eq]; unfold ttl; rewrite Eq; [|reflexivity].
    cbn [dadd]. assert (R : jle (JFin 60000) (round_double (inject_Z now + q)) = true).
    { rewrite <- round_double_60000. apply round_double_mono.
      assert (0 <= inject_Z now)%Q by (unfold Qle; simpl; lia). lra. }
    destruct (round_double (inject_Z now + q)) as [r| | |]; try discriminate; [|reflexivity].
    cbn [num_falsy]. destruct (Qeq_bool r 0) eqn:E; [|reflexivity].
    apply Qeq_bool_iff in E. apply Qle_bool_iff in R. lra. }
  split; [exact L|]. unfold validateSampleAccessToken. rewrite L. cbn [Nat.ltb Nat.leb]. rewrite G, NF.
  split.
  - intro T. replace (jlt expiresAt (JFin (inject_Z t))) with false; [reflexivity|].
    destruct expiresAt as [e| | |]; try discriminate; [|reflexivity].
    simpl in T |- *. unfold Qltb. rewrite T. reflexivity.
  - intro T. rewrite T. split; [reflexivity|]. intro t'. rewrite map_get_delete, map_delete_idem. reflexivity.
Qed.

Lemma X_sample_token_round_trip_witness :
  let store := snd (issueSampleAccessToken (SAMPLE_TOKEN_TTL_MS (Some (JFin 5))) (repeat 171 32) 1000 []) in
  let token := fst (issueSampleAccessToken (SAMPLE_TOKEN_TTL_MS (Some (JFin 5))) (repeat 171 32) 1000 []) in
  Some (JFin 5) <> Some JNaN /\ List.length (repeat 171 32) = 32 /\ (0 <= 1000)%Z /\
  validateSampleAccessToken 61000 (Some token) store = (true, store) /\
  validateSampleAccessToken 61001 (Some token) store = (false, map_delete token store).
Proof.
  intros store token.
  assert (H1 : Some (JFin 5) <> Some JNaN) by discriminate.
  assert (H3 : (0 <= 1000)%Z) by lia.
  destruct (X_sample_token_round_trip (Some (JFin 5)) (repeat 171 32) 1000 61000 [] H1 eq_refl H3)
    as [_ [A _]].
  destruct (X_sample_token_round_trip (Some (JFin 5)) (repeat 171 32) 1000 61001 [] H1 eq_refl H3)
    as [_ [_ B]].
  split; [exact H1|]. split; [reflexivity|]. split; [exact H3|].
  split; [exact (A eq_refl)|exact (proj1 (B eq_refl))].
Defined.

Lemma map_get_cleanup_kept (k : string) (v : jsnum) (now : Z) (m : token_map) :
  map_get k m = Some v -> jlt v (JFin (inject_Z now)) = false ->
  map_get k (sample_token_cleanup now m) = Some v.
Proof.
  unfold sample_token_cleanup. intros G K. induction m as [|[k' v'] m IH]; simpl in G |- *; [discriminate|].
  destruct (String.eqb k k') eqn:E.
  - injection G as <-. rewrite K. simpl. rewrite E. reflexivity.
  - destruct (negb (jlt v' _)); simpl; [rewrite E|]; exact (IH G).
Qed.

Lemma map_get_cleanup_none (k : string) (now : Z) (m : token_map) :
  map_get k m = None -> map_get k (sample_token_cleanup now m) = None.
Proof.
  unfold sample_token_cleanup. intros G. induction m as [|[k' v'] m IH]; simpl in G |- *; [reflexivity|].
  destruct (String.eqb k k') eqn:E; [discriminate|].
  destruct (negb (jlt v' _)); simpl; [rewrite E|]; exact (IH G).
Qed.

Lemma map_get_In (k : string) (m : token_map) : map_get k m = None -> ~ In k (map fst m).
Proof.
  induction m as [|[k' v'] m IH]; simpl; [auto|].
  destruct (String.eqb k k') eqn:E; [discriminate|]. apply String.eqb_neq in E.
  intros G [H|H]; [congruence|exact (IH G H)].
Qed.

Lemma map_get_notin (k : string) (m : token_map) : ~ In k (map fst m) -> map_get k m = None.
Proof.
  induction m as [|[k' v'] m IH]; simpl; [auto|]. intro H.
  destruct (String.eqb k k') eqn:E; [apply String.eqb_eq in E; subst; tauto|]. apply IH. tauto.
Qed.

Lemma map_get_cleanup_dropped (k : string) (v : jsnum) (now : Z) (m : token_map) :
  NoDup (map fst m) -> map_get k m = Some v -> jlt v (JFin (inject_Z now)) = true ->
  map_get k (sample_token_cleanup now m) = None.
Proof.
  unfold sample_token_cleanup. intros N G K. induction m as [|[k' v'] m IH]; simpl in G |- *; [reflexivity|].
  inversion N as [|? ? Hn N']; subst.
  destruct (String.eqb k k') eqn:E.
  - injection G as <-. rewrite K. simpl. apply String.eqb_eq in E. subst k'.
    apply map_get_notin. intro H. apply Hn.
    apply in_map_iff in H as [[a b] [Ha Hb]]. apply filter_In in Hb as [Hb _]. simpl in Ha. subst a.
    apply in_map_iff. exists (k, b). auto.
  - destruct (negb (jlt v' _)); simpl; [rewrite E|]; exact (IH N' G).
Qed.

(** [X14]: On a store without duplicate keys, the periodic cleanup removes
    exactly the expired tokens and,
    for validation at a later time, does not change which tokens are
    accepted. *)
Theorem X_sample_token_cleanup (now : Z) (m : token_map) (k : string) :
  NoDup (map fst m) ->
  map_get k (sample_token_cleanup now m) =
  match map_get k m with
  | Some e => if jlt e (JFin (inject_Z now)) then None else Some e
  | None => None
  end /\
  (forall t token, (now <= t)%Z ->
     fst (validateSampleAccessToken t token (sample_token_cleanup now m)) =
     fst (validateSampleAccessToken t token m)).
Proof.
  intro N. split.
  - destruct (map_get k m) as [e|] eqn:G; [|exact (map_get_cleanup_none _ _ _ G)].
    destruct (jlt e _) eqn:K; [exact (map_get_cleanup_dropped _ _ _ _ N G K)|exact (map_get_cleanup_kept _ _ _ _ G K)].
  - intros t [tok|] T; [|reflexivity]. unfold validateSampleAccessToken.
    destruct (Nat.ltb (String.length tok) 32); [reflexivity|].
    destruct (map_get tok m) as [e|] eqn:G.
    + destruct (jlt e (JFin (inject_Z now))) eqn:K.
      * rewrite (map_get_cleanup_dropped _ _ _ _ N G K). simpl.
        replace (jlt e (JFin (inject_Z t))) with true; [rewrite orb_true_r; reflexivity|].
        destruct e as [q| | |]; try discriminate K; [|reflexivity].
        simpl in K |- *. unfold Qltb in *. apply negb_true_iff in K.
        symmetry. apply negb_true_iff.
        destruct (Qle_bool (inject_Z t) q) eqn:C; [|reflexivity].
        apply Qle_bool_iff in C.
        assert (Qle_bool (inject_Z now) q = true); [apply Qle_bool_iff|congruence].
        apply Qle_trans with (inject_Z t); [|exact C]. rewrite <- Zle_Qle. exact T.
      * rewrite (map_get_cleanup_kept _ _ _ _ G K). destruct (_ || _); reflexivity.
    + rewrite (map_get_cleanup_none _ _ _ G). reflexivity.
Qed.

Lemma X_sample_token_cleanup_witness :
  NoDup (map fst [("a", JFin 5); ("b", JFin 50)]) /\
  map_get "a" (sample_token_cleanup 10 [("a", JFin 5); ("b", JFin 50)]) = None.
Proof.
  assert (N : NoDup (map fst [("a", JFin 5); ("b", JFin 50)])).
  { simpl. constructor; [simpl; intros [H|H]; [discriminate|exact H]|].
    constructor; [simpl; tauto|constructor]. }
  split; [exact N|exact (proj1 (X_sample_token_cleanup 10 _ "a" N))].
Defined.

(** [X15]: With a SAMPLE_TOKEN_TTL_MS that parses to NaN, issued tokens
    expire at NaN: they never validate and the cleanup never removes them. *)
Theorem X_nan_ttl_tokens (bytes : list nat) (now t t' : Z) (m : token_map) :
  let ttl := SAMPLE_TOKEN_TTL_MS (Some JNaN) in
  let token := fst (issueSampleAccessToken ttl bytes now m) in
  let store := snd (issueSampleAccessToken ttl bytes now m) in
  ttl = JNaN /\ map_get token store = Some JNaN /\
  fst (validateSampleAccessToken t (Some token) store) = false /\
  map_get token (sample_token_cleanup t' store) = Some JNaN.
Proof.
  intros ttl token store.
  assert (G : map_get token store = Some JNaN) by apply map_get_set.
  split; [reflexivity|]. split; [exact G|]. split.
  - unfold validateSampleAccessToken. destruct (Nat.ltb _ 32); [reflexivity|]. rewrite G. reflexivity.
  - apply map_get_cleanup_kept; [exact G|reflexivity].
Qed.

(** [X16]: Without a sample token (absent or empty header) the route guard
    is exactly authentication followed by the subscription check, and leaves
    the token store unchanged. *)
Theorem X_guard_without_token (allow : bool) (t1 t2 : Z) (tok : option string) (auth : bool)
  (user : option MwUser) (m : token_map) :
  tok = None \/ tok = Some "" ->
  route_guard allow t1 t2 (mkMwReq tok auth user) m =
  (if negb auth then MDeny 401 "Authentication required"
   else if negb (match user with Some u => u_id u | None => false end)
   then MDeny 401 "Invalid user session"
   else if match user with Some u => u_has_subscription u | None => false end then MNext
   else MDeny 403 "Active subscription required", m).
Proof.
  intros [->| ->]; unfold route_guard, requireAuthenticatedUser, requireActiveSubscription,
    isValidSampleModeRequest; destruct allow; cbn -[String.eqb];
    destruct auth; cbn; try reflexivity;
    destruct user as [[[] []]|]; reflexivity.
Qed.

Lemma X_guard_without_token_witness :
  route_guard true 0 0 (mkMwReq (Some "") true (Some (mkMwUser true false))) [] =
  (MDeny 403 "Active subscription required", []).
Proof. exact (X_guard_without_token true 0 0 (Some "") true _ [] (or_intror eq_refl)). Defined.

(** [X17]: A non-empty sample token that does not validate in sample mode
    is rejected with 401, whatever the user's session or subscription. *)
Theorem X_guard_rejects_stale_token (allow : bool) (t1 t2 : Z) (tok : string) (auth : bool)
  (user : option MwUser) (m : token_map) :
  tok <> "" ->
  fst (isValidSampleModeRequest allow t1 (mkMwReq (Some tok) auth user) m) = false ->
  fst (route_guard allow t1 t2 (mkMwReq (Some tok) auth user) m) =
  MDeny 401 "Invalid or expired sample access token".
Proof.
  intros H V. unfold route_guard, requireAuthenticatedUser.
  destruct (isValidSampleModeRequest allow t1 _ m) as [ok m'].
  simpl in V. subst ok. simpl. apply String.eqb_neq in H. rewrite H. reflexivity.
Qed.

Lemma X_guard_rejects_stale_token_witness :
  fst (route_guard false 0 0 (mkMwReq (Some "abc") true (Some (mkMwUser true true))) []) =
  MDeny 401 "Invalid or expired sample access token".
Proof.
  apply X_guard_rejects_stale_token; [discriminate|reflexivity].
Defined.

(** [X18]: In sample mode a long enough stored token that is not yet
    expired lets the request through without authentication and leaves the
    store as it is. *)
Theorem X_guard_sample_token (t1 t2 : Z) (tok : string) (e : jsnum) (auth : bool)
  (user : option MwUser) (m : token_map) :
  32 <= String.length tok -> map_get tok m = Some e -> num_falsy (Some e) = false ->
  (t1 <= t2)%Z -> jlt e (JFin (inject_Z t2)) = false ->
  route_guard true t1 t2 (mkMwReq (Some tok) auth user) m = (MNext, m).
Proof.
  intros L G F T E2.
  assert (E1 : jlt e (JFin (inject_Z t1)) = false).
  { destruct e as [q| | |]; try reflexivity; [|discriminate E2]. simpl in E2 |- *.
    unfold Qltb in *. apply negb_false_iff in E2. apply negb_false_iff.
    apply Qle_bool_iff in E2. apply Qle_bool_iff.
    apply Qle_trans with (inject_Z t2); [rewrite <- Zle_Qle; exact T|exact E2]. }
  assert (V : forall t, jlt e (JFin (inject_Z t)) = false ->
              validateSampleAccessToken t (Some tok) m = (true, m)).
  { intros t Et. unfold validateSampleAccessToken.
    replace (Nat.ltb (String.length tok) 32) with false by (symmetry; apply Nat.ltb_ge; exact L).
    rewrite G, F, Et. reflexivity. }
  unfold route_guard, requireAuthenticatedUser, requireActiveSubscription, isValidSampleModeRequest.
  cbn [negb mr_token]. rewrite (V t1 E1). rewrite (V t2 E2). reflexivity.
Qed.

Lemma X_guard_sample_token_witness :
  route_guard true 10 20 (mkMwReq (Some "0123456789abcdef0123456789abcdef") false None)
    [("0123456789abcdef0123456789abcdef", JFin 30)] =
  (MNext, [("0123456789abcdef0123456789abcdef", JFin 30)]).
Proof.
  apply (X_guard_sample_token 10 20 _ (JFin 30)); first [reflexivity | simpl; lia].
Defined.
































